(** * Radix routing tree of hapi (tree.go, engine.go): a shallow embedding.

    Go strings are byte strings; they are modelled as [list byte], so that
    multi-byte UTF-8 characters are opaque byte sequences exactly as in Go.
    A [HandlerFunc] is modelled by an identifier, a [HandlersChain] by a list
    of identifiers, and a possibly-nil chain field by an [option].  The
    [uint32] priority counter is a [Z] with its wrap-around written out. *)

From Stdlib Require Import Strings.String Strings.Byte ZArith Lia.
From stdpp Require Import base list gmap.

Open Scope Z_scope.

(** ** Go values *)

Definition gostring := list byte.

(** String literals of the Go source, as their UTF-8 bytes. *)
Definition str (s : string) : gostring := list_byte_of_string s.

#[global] Instance byte_eq_decision : EqDecision byte := Byte.byte_eq_dec.

Definition streqb (a b : gostring) : bool := bool_decide (a = b).

Definition HandlerFunc := nat.
Definition HandlersChain := list HandlerFunc.

(** Result of Go code that may panic (runtime error or explicit panic). *)
Inductive result (A : Type) : Type :=
| Ret (a : A)
| Panic (msg : string).
Arguments Ret {A} a.
Arguments Panic {A} msg.

(** [uint32] increment and decrement. *)
Definition u32 (z : Z) : Z := z mod 2 ^ 32.
Definition incr32 (z : Z) : Z := u32 (z + 1).
Definition decr32 (z : Z) : Z := u32 (z - 1).

(** ** HandlersChain.Last (engine.go) *)

Definition index {A} (l : list A) (i : nat) : result A :=
  match nth_error l i with
  | Some x => Ret x
  | None => Panic "runtime error: index out of range"
  end.

(** [Last] returns [None] for Go's nil [HandlerFunc]. *)
Definition Last (c : HandlersChain) : result (option HandlerFunc) :=
  let length := List.length c in
  if (0 <? length)%nat then
    match index c (length - 1) with
    | Ret h => Ret (Some h)
    | Panic m => Panic m
    end
  else Ret None.

(** ** The tree node (tree.go) *)

#[local] Set Warnings "-register-all".
Inductive node : Type := mkNode {
  path : gostring;
  indices : gostring;
  priority : Z;
  children : list node;
  handlers : option HandlersChain;
  fullPath : gostring
}.

Definition set_priority (n : node) (p : Z) : node :=
  mkNode (path n) (indices n) p (children n) (handlers n) (fullPath n).
Definition set_children (n : node) (cs : list node) : node :=
  mkNode (path n) (indices n) (priority n) cs (handlers n) (fullPath n).

Fixpoint longestCommonPrefix (a b : gostring) : nat :=
  match a, b with
  | x :: a', y :: b' => if Byte.eqb x y then S (longestCommonPrefix a' b') else O
  | _, _ => O
  end.

(** The swap loop of [incrementChildPrio]:
    [for ; newPos > 0 && cs[newPos-1].priority < prio; newPos-- { swap }].
    The indices [newPos - 1] and [newPos] are in range since
    [newPos <= pos < len(cs)]; the fall-back branch is never taken. *)
Fixpoint bubble (newPos : nat) (cs : list node) (prio : Z) : list node * nat :=
  match newPos with
  | O => (cs, O)
  | S k =>
      match cs !! k, cs !! newPos with
      | Some prev, Some cur =>
          if priority prev <? prio
          then bubble k (<[k := cur]> (<[newPos := prev]> cs)) prio
          else (cs, newPos)
      | _, _ => (cs, newPos)
      end
  end.

(** [n.indices[:newPos] + n.indices[pos:pos+1] + n.indices[newPos:pos] +
    n.indices[pos+1:]]; the slice [pos:pos+1] panics when out of range. *)
Definition rebuild_indices (ind : gostring) (newPos pos : nat) : result gostring :=
  if (pos + 1 <=? length ind)%nat then
    Ret (take newPos ind ++ take 1 (drop pos ind)
         ++ take (pos - newPos) (drop newPos ind) ++ drop (pos + 1) ind)
  else Panic "runtime error: slice bounds out of range".

Definition incrementChildPrio (n : node) (pos : nat) : result (node * nat) :=
  let cs := children n in
  match cs !! pos with
  | None => Panic "runtime error: index out of range"
  | Some c =>
      let prio := incr32 (priority c) in
      let cs := <[pos := set_priority c prio]> cs in
      let '(cs, newPos) := bubble pos cs prio in
      let ind :=
        if (newPos =? pos)%nat then Ret (indices n)
        else rebuild_indices (indices n) newPos pos in
      match ind with
      | Ret ind => Ret (mkNode (path n) ind (priority n) cs (handlers n) (fullPath n), newPos)
      | Panic m => Panic m
      end
  end.

(** The "Split edge" block of [addRoute] at common-prefix length [i]
    ([i < len(n.path)], so [n.path[i]] exists). *)
Definition split_edge (n : node) (i : nat) (p : gostring) : node :=
  match drop i (path n) with
  | [] => n
  | b :: _ =>
      let child := mkNode (drop i (path n)) (indices n) (decr32 (priority n))
                     (children n) (handlers n) (fullPath n) in
      mkNode (take i p) [b] (priority n) [child] None (fullPath n)
  end.

Definition insertChild (n : node) (p fp : gostring) (hs : HandlersChain) : node :=
  mkNode p (indices n) (priority n) (children n) (Some hs) fp.

Fixpoint find_index (c : byte) (ind : gostring) : option nat :=
  match ind with
  | [] => None
  | b :: ind' =>
      if Byte.eqb c b then Some O
      else match find_index c ind' with Some j => Some (S j) | None => None end
  end.

(** How a call of [addRoute] ends: it returns, it panics, or it is still
    running when the given number of loop iterations is used up. *)
Inductive outcome : Type :=
| Done
| Panicked (msg : string)
| Running.

Definition dup_msg (fp : gostring) : string :=
  ("handlers are already registered for path '" ++ string_of_list_byte fp ++ "'")%string.

(** The [walk:] loop of [addRoute], one iteration per unit of [fuel].  The
    current node [n] is a pointer into the tree; every write of the loop goes
    to [n] or below it, so the loop is a function from the subtree at [n] to
    its new value.  It returns the outcome and that subtree as it stands when
    the call returns, panics, or runs out of fuel.  In the new-child branch
    the fresh child is built with [insertChild] before it is moved by
    [incrementChildPrio]: the move compares priorities only, and the child is
    the same pointer before and after, so the order of the two writes does not
    matter.  The two [(Running, n)] fall-backs inside an iteration are never
    taken: [i < len(path)] makes [path[i:]] non-empty, and the slash step is
    guarded by [len(n.children) == 1]. *)
Fixpoint walk (fuel : nat) (p fp : gostring) (hs : HandlersChain) (n : node)
  : outcome * node :=
  match fuel with
  | O => (Running, n)
  | S fuel =>
      let i := longestCommonPrefix p (path n) in
      let n := if (i <? length (path n))%nat then split_edge n i p else n in
      if (i <? length p)%nat then
        let p := drop i p in
        match p with
        | [] => (Running, n)
        | c :: _ =>
            if Byte.eqb c "/"%byte && (length (children n) =? 1)%nat then
              match children n with
              | [ch] =>
                  let '(o, ch') :=
                    walk fuel p fp hs (set_priority ch (incr32 (priority ch))) in
                  (o, set_children n [ch'])
              | _ => (Running, n)
              end
            else
              match find_index c (indices n) with
              | Some j =>
                  match incrementChildPrio n j with
                  | Panic m => (Panicked m, n)
                  | Ret (n', j') =>
                      match children n' !! j' with
                      | Some ch =>
                          let '(o, ch') := walk fuel p fp hs ch in
                          (o, set_children n' (<[j' := ch']> (children n')))
                      | None => (Panicked "runtime error: index out of range", n')
                      end
                  end
              | None =>
                  let child := insertChild (mkNode [] [] 0 [] None fp) p fp hs in
                  let n' := mkNode (path n) (indices n ++ [c]) (priority n)
                              (children n ++ [child]) (handlers n) (fullPath n) in
                  match incrementChildPrio n' (length (indices n') - 1) with
                  | Ret (n'', _) => (Done, n'')
                  | Panic m => (Panicked m, n')
                  end
              end
        end
      else
        match handlers n with
        | Some _ => (Panicked (dup_msg fp), n)
        | None =>
            (Done, mkNode (path n) (indices n) (priority n) (children n) (Some hs) fp)
        end
  end.

Definition addRoute (fuel : nat) (p : gostring) (hs : HandlersChain) (n : node)
  : outcome * node :=
  let fp := p in
  let n := set_priority n (incr32 (priority n)) in
  if (length (path n) =? 0)%nat && (length (children n) =? 0)%nat
  then (Done, insertChild n p fp hs)
  else walk fuel p fp hs n.

(** [getValue]: the [walk:] loop descends one node per iteration. *)
Fixpoint getValue (n : node) (p : gostring) {struct n} : result (option HandlersChain) :=
  let prefix := path n in
  let tail :=
    if streqb p prefix then Ret (handlers n) else Ret None in
  if (length prefix <? length p)%nat then
    if streqb (take (length prefix) p) prefix then
      let p := drop (length prefix) p in
      match p with
      | [] => Ret None
      | idxc :: _ =>
          (* [for i, c := range []byte(n.indices) { if c == idxc { n = n.children[i] ... } }],
             scanning [children] alongside [indices]; a match past the end of
             [children] is Go's index-out-of-range panic. *)
          (fix scan (cs : list node) (idx : gostring) {struct cs}
             : result (option HandlersChain) :=
             match cs with
             | ch :: cs' =>
                 match idx with
                 | [] => Ret None
                 | c :: idx' => if Byte.eqb c idxc then getValue ch p else scan cs' idx'
                 end
             | [] =>
                 if existsb (Byte.eqb idxc) idx
                 then Panic "runtime error: index out of range" else Ret None
             end) (children n) (indices n)
      end
    else tail
  else tail.

Definition empty_node : node := mkNode [] [] 0 [] None [].

(** Registering a sequence of routes on one tree, as the test does; stops at
    the first call that does not return. *)
Fixpoint addRoutes (fuel : nat) (rs : list (gostring * HandlersChain)) (n : node)
  : outcome * node :=
  match rs with
  | [] => (Done, n)
  | (p, hs) :: rs' =>
      match addRoute fuel p hs n with
      | (Done, n') => addRoutes fuel rs' n'
      | r => r
      end
  end.

(** ** The method table and the engine (tree.go, engine.go) *)

Record methodTree : Type := mkMethodTree {
  method : gostring;
  root : node
}.

Definition methodTrees := list methodTree.

Fixpoint get (trees : methodTrees) (m : gostring) : option node :=
  match trees with
  | [] => None
  | tree :: trees' => if streqb (method tree) m then Some (root tree) else get trees' m
  end.

(** The root pointer returned by [get] is the one of the first entry with
    that method; writing through it updates that entry. *)
Fixpoint set_root (trees : methodTrees) (m : gostring) (r : node) : methodTrees :=
  match trees with
  | [] => []
  | tree :: trees' =>
      if streqb (method tree) m then mkMethodTree (method tree) r :: trees'
      else tree :: set_root trees' m r
  end.

Definition assert1 (guard : bool) (text : string) : result unit :=
  if guard then Ret tt else Panic text.

Module Engine.

(** Only the [trees] field of [Engine] takes part in routing. *)
Record engine : Type := mkEngine { trees : methodTrees }.

Definition New : engine := mkEngine [].

(** [engine.addRoute]; [debugPrintRoute] only prints.  [path[0]] on the
    empty path is Go's index-out-of-range panic. *)
Definition addRoute (fuel : nat) (m p : gostring) (hs : HandlersChain) (e : engine)
  : outcome * engine :=
  let checks :=
    match p with
    | [] => Panic "runtime error: index out of range"
    | c :: _ =>
        match assert1 (Byte.eqb c "/"%byte) "path must begin with '/'" with
        | Panic msg => Panic msg
        | Ret _ =>
            match assert1 (negb (streqb m [])) "HTTP method can not be empty" with
            | Panic msg => Panic msg
            | Ret _ => assert1 (0 <? length hs)%nat "there must be at least one handler"
            end
        end
    end in
  match checks with
  | Panic msg => (Panicked msg, e)
  | Ret _ =>
      match get (trees e) m with
      | Some r =>
          let '(o, r') := addRoute fuel p hs r in
          (o, mkEngine (set_root (trees e) m r'))
      | None =>
          let r := mkNode [] [] 0 [] None (str "/") in
          let '(o, r') := addRoute fuel p hs r in
          (o, mkEngine (trees e ++ [mkMethodTree m r']))
      end
  end.

(** The tree lookup of [handleHTTPRequest]: the handlers it runs, or
    [None] for the 404 answer. *)
Fixpoint lookup_trees (t : methodTrees) (httpMethod rPath : gostring)
  : result (option HandlersChain) :=
  match t with
  | [] => Ret None
  | tl :: t' =>
      if negb (streqb (method tl) httpMethod) then lookup_trees t' httpMethod rPath
      else getValue (root tl) rPath
  end.

Definition handleHTTPRequest (e : engine) (httpMethod rPath : gostring)
  : result (option HandlersChain) :=
  lookup_trees (trees e) httpMethod rPath.

End Engine.

(** ** The lookup loop over the pointer-linked tree

    [getValue] keeps a pointer [n] into the tree and reassigns it to
    [n.children[i]].  Here the pointer is the address of the node (child
    positions from the root) and the tree is the state of a state monad;
    the loop only reads the state. *)

Definition St (A : Type) : Type := node -> A * node.
Definition st_ret {A} (a : A) : St A := fun t => (a, t).
Definition st_bind {A B} (m : St A) (f : A -> St B) : St B :=
  fun t => let '(a, t') := m t in f a t'.

Fixpoint node_at (t : node) (a : list nat) : option node :=
  match a with
  | [] => Some t
  | i :: a' => match children t !! i with Some c => node_at c a' | None => None end
  end.

Definition read_node (a : list nat) : St (option node) := fun t => (node_at t a, t).

(** One loop iteration per unit of [fuel]; [None] when the fuel runs out. *)
Fixpoint getValueLoop (fuel : nat) (a : list nat) (p : gostring)
  : St (option (result (option HandlersChain))) :=
  match fuel with
  | O => st_ret None
  | S fuel =>
      st_bind (read_node a) (fun on =>
      match on with
      | None => st_ret (Some (Panic "runtime error: invalid memory address or nil pointer dereference"))
      | Some n =>
          let prefix := path n in
          if (length prefix <? length p)%nat && streqb (take (length prefix) p) prefix then
            let p := drop (length prefix) p in
            match p with
            | [] => st_ret (Some (Ret None))
            | idxc :: _ =>
                match find_index idxc (indices n) with
                | Some i =>
                    if (i <? length (children n))%nat then getValueLoop fuel (a ++ [i]) p
                    else st_ret (Some (Panic "runtime error: index out of range"))
                | None => st_ret (Some (Ret None))
                end
            end
          else if streqb p prefix then st_ret (Some (Ret (handlers n)))
          else st_ret (Some (Ret None))
      end)
  end.

Fixpoint depth (n : node) : nat := S (list_max (map depth (children n))).

(** ** Tree properties *)

(** [len(indices) = len(children)] at every node. *)
Fixpoint wfb (n : node) : bool :=
  (length (indices n) =? length (children n))%nat && forallb wfb (children n).

(** The registered routes: the concatenated segments from the root to every
    node with a non-nil handler chain, with that chain. *)
Fixpoint node_routes (n : node) : list (gostring * HandlersChain) :=
  (match handlers n with Some h => [(path n, h)] | None => [] end)
  ++ map (fun qh => (path n ++ fst qh, snd qh)) (concat (map node_routes (children n))).

(** Some node below the root has an empty segment. *)
Fixpoint has_empty_nonroot (n : node) : bool :=
  existsb (fun c => (length (path c) =? 0)%nat || has_empty_nonroot c) (children n).

(** ** Test data (tree_test.go) *)

Definition fakeHandler (i : nat) : HandlersChain := [i].

Definition test_routes : list (gostring * HandlersChain) :=
  zip (map str ["/hi"; "/contact"; "/co"; "/c"; "/a"; "/ab"; "/doc/"; "/doc/go1.html";
                "/doc/go_faq.html"; "/α"; "/β"]%string)
      (map fakeHandler (seq 1 11)).

Definition test_tree : outcome * node := addRoutes 100 test_routes empty_node.

(** Two routes whose second registration splits ["/ab"] at ["/a"] and then
    meets ['/'] with the single child ["b"]. *)
Definition slash_routes : list (gostring * HandlersChain) :=
  [(str "/ab", fakeHandler 1); (str "/a/", fakeHandler 2)].

(** ** Registering a sequence of routes on the engine *)

(** A sequence of [engine.addRoute] calls, stopping at the first call that
    does not return. *)
Fixpoint engine_addRoutes (fuel : nat) (regs : list (gostring * gostring * HandlersChain))
    (e : Engine.engine) : outcome * Engine.engine :=
  match regs with
  | [] => (Done, e)
  | (m, p, hs) :: regs' =>
      match Engine.addRoute fuel m p hs e with
      | (Done, e') => engine_addRoutes fuel regs' e'
      | r => r
      end
  end.

(** ** RouterGroup.combineHandlers (routergroup.go) *)

(** [make(HandlersChain, n)]: [n] nil functions. *)
Definition make_chain (n : nat) : list (option HandlerFunc) := repeat None n.

(** Go's [copy(dst, src)]: the first [min(len(dst), len(src))] elements of
    [dst] are overwritten by those of [src]. *)
Definition copy {A} (dst src : list A) : list A :=
  let k := Nat.min (length dst) (length src) in take k src ++ drop k dst.

(** The second [copy] writes through the slice [mergedHandlers[len:]], which
    shares the array of [mergedHandlers]; a nil slot is [None]. *)
Definition combineHandlers (groupHandlers handlers : HandlersChain) : list (option HandlerFunc) :=
  let finalSize := (length groupHandlers + length handlers)%nat in
  let mergedHandlers := make_chain finalSize in
  let mergedHandlers := copy mergedHandlers (map Some groupHandlers) in
  let l := length groupHandlers in
  take l mergedHandlers ++ copy (drop l mergedHandlers) (map Some handlers).

(** ** Mode and debug output (debug.go) *)

Definition debugCode : Z := 0.
Definition releaseCode : Z := 1.
Definition testCode : Z := 2.

Definition DebugMode : gostring := str "debug".
Definition ReleaseMode : gostring := str "release".
Definition TestMode : gostring := str "test".

(** The package variables [Mode] and [modeName]. *)
Record modeState : Type := mkModeState { Mode : Z; modeName : gostring }.

Definition initialMode : modeState := mkModeState debugCode DebugMode.

Definition IsDebugging (s : modeState) : bool := Z.eqb (Mode s) debugCode.

(** The [default] branch panics before either variable is written. *)
Definition SetMode (value : gostring) (s : modeState) : result modeState :=
  let value := if streqb value [] then DebugMode else value in
  let mode :=
    if streqb value DebugMode then Ret debugCode
    else if streqb value ReleaseMode then Ret releaseCode
    else if streqb value TestMode then Ret testCode
    else Panic ("hapi mode unknown: " ++ string_of_list_byte value
                ++ " (available mode: debug release test)")%string in
  match mode with
  | Ret m => Ret (mkModeState m value)
  | Panic msg => Panic msg
  end.

Definition newline : gostring := ["010"%byte].

(** [strings.HasSuffix]. *)
Definition HasSuffix (s suffix : gostring) : bool :=
  (length suffix <=? length s)%nat && streqb (drop (length s - length suffix) s) suffix.

(** [debugPrint]: the format and arguments handed to [fmt.Fprintf], or
    [None] when nothing is printed. *)
Definition debugPrint {V} (s : modeState) (format : gostring) (values : list V)
  : option (gostring * list V) :=
  if IsDebugging s then
    let format := if negb (HasSuffix format newline) then format ++ newline else format in
    Some (str "[hapi-debug] " ++ format, values)
  else None.

(** ** The request context (context.go) *)

#[global] Instance byte_countable : Countable byte :=
  inj_countable Byte.to_N Byte.of_N Byte.of_to_N.

(** [int8(z)]: two's-complement truncation to 8 bits. *)
Definition int8 (z : Z) : Z := (z + 128) mod 256 - 128.

(** [s[i]] with a signed index. *)
Definition index_int {A} (l : list A) (i : Z) : result A :=
  if i <? 0 then Panic "runtime error: index out of range" else index l (Z.to_nat i).

Module Ctx.

(** Values of Go's [any] type stored in [Keys]; [AnyNil] is the nil interface. *)
Inductive any : Type :=
| AnyNil
| AnyString (s : gostring)
| AnyInt (z : Z)
| AnyBool (b : bool)
| AnyOther (tag : nat).

(** The fields of [Context] that flow control and metadata use; [Keys] is
    [None] for the nil map. *)
Record Context : Type := mkContext {
  handlers : HandlersChain;
  index : Z;
  Keys : option (gmap gostring any);
  fullPath : gostring
}.

(** [math.MaxInt8 >> 1]. *)
Definition abortIndex : Z := Z.shiftr 127 1.

Definition set_index (c : Context) (i : Z) : Context :=
  mkContext (handlers c) i (Keys c) (fullPath c).
Definition set_handlers (c : Context) (hs : HandlersChain) : Context :=
  mkContext hs (index c) (Keys c) (fullPath c).
Definition set_keys (c : Context) (k : option (gmap gostring any)) : Context :=
  mkContext (handlers c) (index c) k (fullPath c).

Definition reset (c : Context) : Context := mkContext [] (-1) (Keys c) [].

Definition IsAborted (c : Context) : bool := abortIndex <=? index c.

Definition Abort (c : Context) : Context := set_index c abortIndex.

Section Flow.

(** What a handler does to the context it is called with. *)
Variable call : HandlerFunc -> Context -> Context.

(** The loop of [Next], one iteration per unit of [fuel]; [None] when the
    fuel runs out.  [c.handlers] and [c.index] are read again after each
    call, as the handler may have changed them. *)
Fixpoint next_loop (fuel : nat) (c : Context) : option (result Context) :=
  match fuel with
  | O => None
  | S fuel =>
      if index c <? int8 (Z.of_nat (length (handlers c))) then
        match index_int (handlers c) (index c) with
        | Panic m => Some (Panic m)
        | Ret h =>
            let c := call h c in
            next_loop fuel (set_index c (int8 (index c + 1)))
        end
      else Some (Ret c)
  end.

Definition Next (fuel : nat) (c : Context) : option (result Context) :=
  next_loop fuel (set_index c (int8 (index c + 1))).

(** Reference order for the theorems about [Next]: the handlers [hs] called
    one after the other, the first at position [i], each with [c.index] set
    to its own position; [c.index] is the position after the last one. *)
Fixpoint run_chain (i : Z) (hs : HandlersChain) (c : Context) : Context :=
  match hs with
  | [] => set_index c i
  | h :: hs' => run_chain (i + 1) hs' (call h (set_index c i))
  end.

End Flow.

Definition Set_ (c : Context) (key : gostring) (value : any) : Context :=
  let m := match Keys c with None => ∅ | Some m => m end in
  set_keys c (Some (<[key := value]> m)).

Definition Get (c : Context) (key : gostring) : any * bool :=
  match Keys c with
  | None => (AnyNil, false)
  | Some m => match m !! key with Some v => (v, true) | None => (AnyNil, false) end
  end.

Definition quote : string := String (Ascii.ascii_of_nat 34) EmptyString.

Definition MustGet (c : Context) (key : gostring) : result any :=
  match Get c key with
  | (value, true) => Ret value
  | (_, false) =>
      Panic ("Key " ++ quote ++ string_of_list_byte key ++ quote ++ " does not exist")%string
  end.

(** [Copy]: the [for k, v := range c.Keys] loop inserts every entry into a
    fresh map; it visits nothing when [c.Keys] is nil. *)
Definition Copy (c : Context) : Context :=
  let entries := match Keys c with None => [] | Some m => map_to_list m end in
  mkContext [] abortIndex
    (Some (foldr (fun kv m => <[fst kv := snd kv]> m) ∅ entries)) (fullPath c).

End Ctx.


(** ** [utils.go]: [lastChar] and [joinPaths] *)

(** [lastChar] panics on the empty string and indexes the last byte
    otherwise. *)
Definition lastChar (str : gostring) : result byte :=
  if streqb str [] then Panic "The length of the string can't be 0"
  else index str (length str - 1).

Section JoinPaths.
(** [path.Join] of Go's standard library, applied to two elements. *)
Variable Join : gostring -> gostring -> gostring.

Definition joinPaths (absolutePath relativePath : gostring) : result gostring :=
  if streqb relativePath [] then Ret absolutePath else
  let finalPath := Join absolutePath relativePath in
  match lastChar relativePath with
  | Panic m => Panic m
  | Ret c =>
      if Byte.eqb c "/"%byte then
        match lastChar finalPath with
        | Panic m => Panic m
        | Ret d => if negb (Byte.eqb d "/"%byte) then Ret (finalPath ++ str "/") else Ret finalPath
        end
      else Ret finalPath
  end.
End JoinPaths.

(** A [path.Join] that only inserts the separator, for the witnesses. *)
Definition slash_join (a b : gostring) : gostring := a ++ str "/" ++ b.

(** ** Invariants and inputs used by the proofs *)

(** An empty path with no children comes only with no handlers: the node is
    the untouched root [addRoute] fills in place. *)
Definition empty_inv (n : node) : Prop := path n = [] -> children n = [] -> handlers n = None.


(** A handler that neither reassigns [c.handlers] nor moves [c.index]. *)
Definition pres (call : HandlerFunc -> Ctx.Context -> Ctx.Context) (h : HandlerFunc) : Prop :=
  forall c, Ctx.handlers (call h c) = Ctx.handlers c /\ Ctx.index (call h c) = Ctx.index c.

(** A node with one child, for the witnesses below. *)
Definition doc_node : node :=
  mkNode (str "/doc") (str "/") 2
    [mkNode (str "/go") [] 1 [] (Some (fakeHandler 2)) (str "/doc/go")]
    (Some (fakeHandler 1)) (str "/doc").


(** Handlers for the witnesses: one records its identifier under the key
    ["last"], the other calls [Abort] when it is handler 2. *)
Definition log_call (h : HandlerFunc) (c : Ctx.Context) : Ctx.Context :=
  Ctx.Set_ c (str "last") (Ctx.AnyInt (Z.of_nat h)).

Definition abort_call (h : HandlerFunc) (c : Ctx.Context) : Ctx.Context :=
  if (h =? 2)%nat then Ctx.Abort c else c.

Definition ctx0 : Ctx.Context := Ctx.mkContext [7%nat] 5 None (str "/old").


(** * Proofs *)

(** ** The slash step on a single child that does not start with ['/'] *)

(** When the remaining path starts with ['/'] and the current node's segment
    starts with another byte, the walk splits the node at offset 0 (leaving
    it with an empty segment and one child holding the old segment), then
    takes the slash step into that child: the same situation again, one level
    deeper.  The loop never ends. *)
Lemma walk_slash_loop (fuel : nat) (fp : gostring) (hs : HandlersChain)
    (rest : gostring) (X : node) (b : byte) (r : gostring) :
  path X = b :: r -> b <> "/"%byte ->
  fst (walk fuel ("/"%byte :: rest) fp hs X) = Running /\
  (fuel <> O -> path (snd (walk fuel ("/"%byte :: rest) fp hs X)) = []).
Proof.
  revert X b r. induction fuel as [|fuel IH]; intros X b r HX Hb.
  - split; [reflexivity | congruence].
  - assert (E : Byte.eqb "/"%byte b = false).
    { destruct (Byte.eqb "/"%byte b) eqn:E; [|reflexivity].
      apply Byte.byte_dec_bl in E. congruence. }
    destruct X as [xp xi xpr xc xh xf]. simpl in HX. subst xp.
    simpl. rewrite E. simpl.
    destruct (walk fuel ("/"%byte :: rest) fp hs
                (set_priority (mkNode (b :: r) xi (decr32 xpr) xc xh xf)
                   (incr32 (decr32 xpr)))) as [o ch'] eqn:Ew.
    destruct (IH (set_priority (mkNode (b :: r) xi (decr32 xpr) xc xh xf)
                   (incr32 (decr32 xpr))) b r eq_refl Hb) as [H1 _].
    rewrite Ew in H1. simpl in H1. subst o. simpl. split; [reflexivity | auto].
Qed.

(** After ["/ab"], the walk of ["/a/"] from the root. *)
Lemma addRoutes_slash (fuel : nat) :
  exists ch, addRoutes (S fuel) slash_routes empty_node =
    (Running, mkNode (str "/a") (str "b") 2 [ch] None (str "/ab")) /\
    (fuel <> O -> path ch = []).
Proof.
  unfold slash_routes, addRoutes, addRoute. simpl.
  match goal with |- context [walk fuel ?q ?fp ?hs ?X] =>
    destruct (walk_slash_loop fuel fp hs [] X "b"%byte [] eq_refl ltac:(discriminate))
      as [H1 H2];
    destruct (walk fuel q fp hs X) as [o ch] eqn:Ew end.
  simpl in H1, H2. subst o. exists ch. split; [reflexivity | exact H2].
Qed.

(** ** C5: the test vector *)

(** C5: after registering /hi, /contact, /co, /c, /a, /ab, /doc/,
    /doc/go1.html, /doc/go_faq.html, /α, /β, every registration returns and
    getValue finds /a, /hi, /contact, /co, /ab, /α and /β with the chain
    registered for that path, and finds nothing for /, /con, /cona and /no.
    /α and /β are the UTF-8 byte strings 2F CE B1 and 2F CE B2. *)
Theorem test_vector_lookups :
  fst test_tree = Done /\
  str "/α" = ["/"; "206"; "177"]%byte /\ str "/β" = ["/"; "206"; "178"]%byte /\
  getValue (snd test_tree) (str "/a") = Ret (Some (fakeHandler 5)) /\
  getValue (snd test_tree) (str "/") = Ret None /\
  getValue (snd test_tree) (str "/hi") = Ret (Some (fakeHandler 1)) /\
  getValue (snd test_tree) (str "/contact") = Ret (Some (fakeHandler 2)) /\
  getValue (snd test_tree) (str "/co") = Ret (Some (fakeHandler 3)) /\
  getValue (snd test_tree) (str "/con") = Ret None /\
  getValue (snd test_tree) (str "/cona") = Ret None /\
  getValue (snd test_tree) (str "/no") = Ret None /\
  getValue (snd test_tree) (str "/ab") = Ret (Some (fakeHandler 6)) /\
  getValue (snd test_tree) (str "/α") = Ret (Some (fakeHandler 10)) /\
  getValue (snd test_tree) (str "/β") = Ret (Some (fakeHandler 11)).
Proof. vm_compute. repeat split. Qed.

(** ** C10: HandlersChain.Last *)

(** C10: Last never panics; it returns nil for the empty chain and the
    final element of a non-empty chain. *)
Theorem Last_total (c : HandlersChain) :
  (c = [] /\ Last c = Ret None) \/
  (exists l x, c = l ++ [x] /\ Last c = Ret (Some x)).
Proof.
  destruct (rev c) as [|x l] eqn:E.
  - left. apply (f_equal (@rev _)) in E. rewrite rev_involutive in E. subst. split; reflexivity.
  - right. exists (rev l), x.
    assert (Hc : c = rev l ++ [x]).
    { rewrite <- (rev_involutive c), E. reflexivity. }
    split; [exact Hc|]. subst c. unfold Last, index.
    rewrite length_app. simpl.
    replace (length (rev l) + 1 - 1)%nat with (length (rev l)) by lia.
    destruct (0 <? length (rev l) + 1)%nat eqn:E0; [|apply Nat.ltb_ge in E0; lia].
    rewrite nth_error_app2 by lia. rewrite Nat.sub_diag. reflexivity.
Qed.

(** ** C1, C2, C3, C4: the registration of ["/a/"] after ["/ab"] *)

(** C1 (fails): the round trip breaks for the distinct routes /ab and /a/:
    whatever number of steps the registration of /a/ runs, the tree it leaves
    does not return the chain of /a/ (nor any chain) for /a/. *)
Theorem slash_route_not_found (fuel : nat) :
  getValue (snd (addRoutes fuel slash_routes empty_node)) (str "/a/") = Ret None.
Proof.
  destruct fuel as [|fuel]; [reflexivity|].
  destruct (addRoutes_slash fuel) as [ch [-> _]]. reflexivity.
Qed.

(** C2 (fails): the registration of /a/ after /ab never returns: after any
    number of loop iterations the call is still running. *)
Theorem slash_route_diverges (fuel : nat) :
  fst (addRoutes fuel slash_routes empty_node) = Running.
Proof.
  destruct fuel as [|fuel]; [reflexivity|].
  destruct (addRoutes_slash fuel) as [ch [-> _]]. reflexivity.
Qed.

(** C4 (fails): from its second loop iteration on, the registration of /a/
    after /ab has left a node below the root with an empty segment. *)
Theorem slash_route_empty_segment (fuel : nat) :
  has_empty_nonroot (snd (addRoutes (S (S fuel)) slash_routes empty_node)) = true.
Proof.
  destruct (addRoutes_slash (S fuel)) as [ch [-> Hch]].
  simpl. rewrite Hch by congruence. reflexivity.
Qed.

(** C3 (fails): through the engine, with a valid path, a non-empty method, a
    non-empty chain and no route registered at /a/, the call neither panics
    nor returns. *)
Theorem engine_slash_route_hangs (fuel : nat) :
  let e1 := Engine.addRoute fuel (str "GET") (str "/ab") (fakeHandler 1) Engine.New in
  fst e1 = Done /\
  get (Engine.trees (snd e1)) (str "GET") = Some (mkNode (str "/ab") [] 1 [] (Some (fakeHandler 1)) (str "/ab")) /\
  fst (Engine.addRoute fuel (str "GET") (str "/a/") (fakeHandler 2) (snd e1)) = Running.
Proof.
  destruct fuel as [|fuel]; [repeat split; reflexivity|].
  simpl. split; [reflexivity|]. split; [reflexivity|].
  unfold Engine.addRoute, addRoute. simpl.
  match goal with |- context [walk fuel ?q ?fp ?hs ?X] =>
    destruct (walk_slash_loop fuel fp hs [] X "b"%byte [] eq_refl ltac:(discriminate))
      as [H1 _];
    destruct (walk fuel q fp hs X) as [o ch] eqn:Ew end.
  simpl in H1 |- *. exact H1.
Qed.

(** ** incrementChildPrio *)

Lemma lookup_mid {A} (l1 l2 : list A) (x : A) : (l1 ++ x :: l2) !! length l1 = Some x.
Proof. apply list_lookup_middle. reflexivity. Qed.

Lemma insert_mid {A} (l1 l2 : list A) (x y : A) :
  <[length l1 := x]> (l1 ++ y :: l2) = l1 ++ x :: l2.
Proof. induction l1 as [|z l1 IH]; simpl; [reflexivity | rewrite IH; reflexivity]. Qed.

(** The swap loop moves [cur] in front of the maximal run of elements just
    before it whose priority is below [prio]. *)
Lemma bubble_shape (prio : Z) (cur : node) (pre : list node) :
  forall post : list node,
  exists pre1 run,
    pre = pre1 ++ run /\
    Forall (fun s => priority s < prio) run /\
    (pre1 = [] \/ exists s, last pre1 = Some s /\ prio <= priority s) /\
    bubble (length pre) (pre ++ cur :: post) prio = (pre1 ++ cur :: run ++ post, length pre1).
Proof.
  induction pre as [|s pre' IH] using rev_ind; intros post.
  - exists [], []. repeat split; auto.
  - rewrite length_app. simpl. rewrite Nat.add_1_r.
    rewrite <- app_assoc. simpl.
    assert (H1 : (pre' ++ s :: cur :: post) !! length pre' = Some s) by apply lookup_mid.
    assert (H2 : (pre' ++ s :: cur :: post) !! S (length pre') = Some cur).
    { rewrite lookup_app_r by lia.
      replace (S (length pre') - length pre')%nat with 1%nat by lia. reflexivity. }
    cbn [bubble]. rewrite H1, H2.
    destruct (priority s <? prio) eqn:Hs.
    + apply Z.ltb_lt in Hs.
      replace (S (length pre')) with (length pre' + 1)%nat by lia.
      rewrite insert_app_r. simpl. rewrite insert_mid.
      destruct (IH (s :: post)) as (pre1 & run & -> & Hrun & Hstop & Hb).
      exists pre1, (run ++ [s]). split; [rewrite app_assoc; reflexivity|].
      split; [apply Forall_app; split; [exact Hrun | constructor; [exact Hs | constructor]]|].
      split; [exact Hstop|].
      rewrite Hb, <- app_assoc. reflexivity.
    + apply Z.ltb_ge in Hs.
      exists (pre' ++ [s]), []. split; [rewrite app_nil_r; reflexivity|].
      split; [constructor|]. split.
      * right. exists s. split; [rewrite last_app; reflexivity | exact Hs].
      * rewrite <- app_assoc, length_app. simpl. f_equal. lia.
Qed.

Lemma incrementChildPrio_shape (n : node) (pre post : list node) (c : node)
    (ipre ipost : gostring) (b : byte) :
  children n = pre ++ c :: post -> indices n = ipre ++ b :: ipost ->
  length ipre = length pre ->
  exists pre1 run ipre1 irun,
    pre = pre1 ++ run /\ ipre = ipre1 ++ irun /\
    length ipre1 = length pre1 /\ length irun = length run /\
    Forall (fun s => priority s < incr32 (priority c)) run /\
    (pre1 = [] \/ exists s, last pre1 = Some s /\ incr32 (priority c) <= priority s) /\
    incrementChildPrio n (length pre) =
      Ret (mkNode (path n) (ipre1 ++ b :: irun ++ ipost) (priority n)
             (pre1 ++ set_priority c (incr32 (priority c)) :: run ++ post)
             (handlers n) (fullPath n), length pre1).
Proof.
  intros Hcs Hind Hlen.
  destruct (bubble_shape (incr32 (priority c)) (set_priority c (incr32 (priority c))) pre post)
    as (pre1 & run & Hpre & Hrun & Hstop & Hb).
  assert (Hl : (length pre = length pre1 + length run)%nat) by (rewrite Hpre, length_app; lia).
  exists pre1, run, (take (length pre1) ipre), (drop (length pre1) ipre).
  assert (Hi1 : length (take (length pre1) ipre) = length pre1) by (rewrite length_take; lia).
  assert (Hi2 : length (drop (length pre1) ipre) = length run) by (rewrite length_drop; lia).
  split; [exact Hpre|]. split; [rewrite take_drop; reflexivity|].
  split; [exact Hi1|]. split; [exact Hi2|]. split; [exact Hrun|]. split; [exact Hstop|].
  unfold incrementChildPrio. rewrite Hcs, lookup_mid, insert_mid, Hb.
  set (ipre1 := take (length pre1) ipre) in *.
  set (irun := drop (length pre1) ipre) in *.
  assert (Hip : ipre = ipre1 ++ irun) by (subst ipre1 irun; rewrite take_drop; reflexivity).
  destruct (length pre1 =? length pre)%nat eqn:Eq.
  - apply Nat.eqb_eq in Eq.
    assert (run = []) as -> by (destruct run; [reflexivity | simpl in Hl; lia]).
    assert (irun = []) as Hir by (destruct irun; [reflexivity | simpl in Hi2; lia]).
    rewrite Hind, Hip, Hir, !app_nil_r. rewrite Eq. reflexivity.
  - apply Nat.eqb_neq in Eq.
    unfold rebuild_indices. rewrite Hind, Hip.
    rewrite !length_app. simpl.
    destruct (length pre + 1 <=? length ipre1 + length irun + S (length ipost))%nat eqn:Ep;
      [|apply Nat.leb_gt in Ep; lia].
    rewrite <- app_assoc.
    rewrite (take_app_length' ipre1 _ (length pre1)) by lia.
    rewrite Hl.
    rewrite (drop_app_add' ipre1 _ (length pre1) (length run)) by lia.
    rewrite (drop_app_length' irun _ (length run)) by lia. simpl.
    replace (length pre1 + length run - length pre1)%nat with (length irun) by lia.
    rewrite (drop_app_length' ipre1 _ (length pre1)) by lia.
    rewrite take_app_length.
    replace (length pre1 + length run + 1)%nat with (length ipre1 + (length irun + 1))%nat by lia.
    rewrite drop_app_add, drop_app_add. simpl. rewrite drop_0. reflexivity.
Qed.

(** Children for the reordering examples: leaves with given priorities. *)
Definition prio_leaf (s : string) (p : Z) : node := mkNode (str s) [] p [] None (str s).

Definition reorder_node : node :=
  mkNode (str "/") (str "abcd") 5
    [prio_leaf "a" 1; prio_leaf "b" 5; prio_leaf "c" 1; prio_leaf "d" 1] None (str "/").

Definition wrap_node : node :=
  mkNode (str "/") (str "a") 5 [prio_leaf "a" (2 ^ 32 - 1)] None (str "/").

(** C8 (fails as stated): the moved child does not pass every sibling of
    lower priority, only the run right in front of it: with priorities
    1, 5, 1, 1 at "a", "b", "c", "d", incrementing "d" (to 2) moves it past
    "c" and stops at "b"; "a" (priority 1 < 2) stays in front.  And the
    [uint32] counter wraps: a child at 2^32 - 1 goes to 0, not up by one. *)
Lemma incrementChildPrio_counterexample :
  (exists n', incrementChildPrio reorder_node 3 = Ret (n', 2%nat) /\
     map priority (children n') = [1; 5; 2; 1] /\ indices n' = str "abdc" /\
     exists a, children n' !! 0%nat = Some a /\ priority a < 2) /\
  (exists n', incrementChildPrio wrap_node 0 = Ret (n', 0%nat) /\
     map priority (children n') = [0] /\ 0 <> (2 ^ 32 - 1) + 1).
Proof.
  split.
  - eexists. split; [vm_compute; reflexivity|]. split; [reflexivity|].
    split; [reflexivity|]. eexists. split; [reflexivity|]. vm_compute. reflexivity.
  - eexists. split; [vm_compute; reflexivity|]. split; [vm_compute; reflexivity | lia].
Qed.

(** C8 (amended): incrementing the child at position [pos] (children
    [pre ++ c :: post], index bytes [ipre ++ b :: ipost], aligned) sets its
    priority to [(priority c + 1) mod 2^32] and moves the pair [(b, c)]
    to the front of the maximal run of siblings right before it whose
    priority is below the new one; the sibling before its new place, if
    any, has priority at least the new one.  Every other child keeps its
    relative order, and the (index byte, child) pairs are permuted. *)
Theorem incrementChildPrio_moves_past_lower_run (n : node) (pre post : list node)
    (c : node) (ipre ipost : gostring) (b : byte)
    (Hcs : children n = pre ++ c :: post) (Hind : indices n = ipre ++ b :: ipost)
    (Hlen : length ipre = length pre) :
  let prio := incr32 (priority c) in
  prio = (priority c + 1) mod 2 ^ 32 /\
  exists pre1 run ipre1 irun n',
    incrementChildPrio n (length pre) = Ret (n', length pre1) /\
    pre = pre1 ++ run /\ ipre = ipre1 ++ irun /\ length ipre1 = length pre1 /\
    children n' = pre1 ++ set_priority c prio :: run ++ post /\
    indices n' = ipre1 ++ b :: irun ++ ipost /\
    Forall (fun s => priority s < prio) run /\
    (pre1 = [] \/ exists s, last pre1 = Some s /\ prio <= priority s) /\
    zip (indices n') (children n') ≡ₚ zip (indices n) (<[length pre := set_priority c prio]> (children n)) /\
    path n' = path n /\ priority n' = priority n /\ handlers n' = handlers n /\
    fullPath n' = fullPath n.
Proof.
  intros prio. split; [reflexivity|].
  destruct (incrementChildPrio_shape n pre post c ipre ipost b Hcs Hind Hlen)
    as (pre1 & run & ipre1 & irun & Hpre & Hipre & Hl1 & Hl2 & Hrun & Hstop & Hres).
  eexists pre1, run, ipre1, irun, _. split; [exact Hres|].
  do 7 (split; [assumption || reflexivity|]).
  split; [|repeat split].
  simpl. rewrite Hind, Hcs, insert_mid, Hpre, Hipre, <- !app_assoc.
  rewrite !zip_with_app by assumption. simpl.
  rewrite !zip_with_app by assumption.
  apply Permutation_app_head. apply Permutation_middle.
Qed.

(** Witness: the theorem at the reordering example. *)
Lemma incrementChildPrio_moves_past_lower_run_witness :
  children reorder_node = [prio_leaf "a" 1; prio_leaf "b" 5; prio_leaf "c" 1] ++ prio_leaf "d" 1 :: [] /\
  indices reorder_node = str "abc" ++ "d"%byte :: [] /\
  length (str "abc") = length [prio_leaf "a" 1; prio_leaf "b" 5; prio_leaf "c" 1] /\
  (incr32 (priority (prio_leaf "d" 1)) = (priority (prio_leaf "d" 1) + 1) mod 2 ^ 32 /\
   exists pre1 run ipre1 irun n',
    incrementChildPrio reorder_node 3 = Ret (n', length pre1) /\
    [prio_leaf "a" 1; prio_leaf "b" 5; prio_leaf "c" 1] = pre1 ++ run /\
    str "abc" = ipre1 ++ irun /\ length ipre1 = length pre1 /\
    children n' = pre1 ++ set_priority (prio_leaf "d" 1) (incr32 1) :: run ++ [] /\
    indices n' = ipre1 ++ "d"%byte :: irun ++ [] /\
    Forall (fun s => priority s < incr32 1) run /\
    (pre1 = [] \/ exists s, last pre1 = Some s /\ incr32 1 <= priority s) /\
    zip (indices n') (children n') ≡ₚ
      zip (indices reorder_node) (<[3%nat := set_priority (prio_leaf "d" 1) (incr32 1)]> (children reorder_node)) /\
    path n' = path reorder_node /\ priority n' = priority reorder_node /\
    handlers n' = handlers reorder_node /\ fullPath n' = fullPath reorder_node).
Proof.
  split; [reflexivity|]. split; [reflexivity|]. split; [reflexivity|].
  exact (incrementChildPrio_moves_past_lower_run reorder_node
           [prio_leaf "a" 1; prio_leaf "b" 5; prio_leaf "c" 1] [] (prio_leaf "d" 1)
           (str "abc") [] "d"%byte eq_refl eq_refl eq_refl).
Defined.

(** ** Structure of the tree: induction, the lookup equation, alignment *)

Section NodeInd.
Variable P : node -> Prop.
Hypothesis HP : forall n, Forall P (children n) -> P n.

Fixpoint node_ind' (n : node) : P n :=
  match n with
  | mkNode pa ind pr cs hs fp =>
      HP (mkNode pa ind pr cs hs fp)
        ((fix go (l : list node) : Forall P l :=
            match l with
            | [] => List.Forall_nil P
            | c :: l' => @List.Forall_cons _ P c l' (node_ind' c) (go l')
            end) cs)
  end.
End NodeInd.

Lemma byte_eqb_sym (a b : byte) : Byte.eqb a b = Byte.eqb b a.
Proof.
  destruct (Byte.eqb a b) eqn:E1, (Byte.eqb b a) eqn:E2; try reflexivity.
  - apply Byte.byte_dec_bl in E1. subst. rewrite Byte.byte_dec_lb in E2 by reflexivity. discriminate.
  - apply Byte.byte_dec_bl in E2. subst. rewrite Byte.byte_dec_lb in E1 by reflexivity. discriminate.
Qed.

Lemma find_index_lt (c : byte) (idx : gostring) (i : nat) :
  find_index c idx = Some i -> (i < length idx)%nat.
Proof.
  revert i. induction idx as [|b idx IH]; intros i H; simpl in H; [discriminate|].
  destruct (Byte.eqb c b); [injection H as <-; simpl; lia|].
  destruct (find_index c idx) as [j|]; [injection H as <-; simpl; specialize (IH j eq_refl); lia
                                      | discriminate].
Qed.

Lemma lookup_In {A} (l : list A) (i : nat) (x : A) : l !! i = Some x -> In x l.
Proof.
  revert i. induction l as [|y l IH]; intros [|i] H; simpl in H; try discriminate.
  - injection H as <-. left. reflexivity.
  - right. exact (IH i H).
Qed.

(** [getValue] in the shape of the Go loop body: the index scan is
    [find_index] followed by [n.children[i]]. *)
Lemma getValue_eq (n : node) (p : gostring) :
  getValue n p =
  if (length (path n) <? length p)%nat && streqb (take (length (path n)) p) (path n) then
    match drop (length (path n)) p with
    | [] => Ret None
    | idxc :: _ =>
        match find_index idxc (indices n) with
        | Some i =>
            match children n !! i with
            | Some ch => getValue ch (drop (length (path n)) p)
            | None => Panic "runtime error: index out of range"
            end
        | None => Ret None
        end
    end
  else if streqb p (path n) then Ret (handlers n) else Ret None.
Proof.
  destruct n as [np ni npr nc nh nf]. simpl.
  destruct (length np <? length p)%nat; simpl; [|reflexivity].
  destruct (streqb (take (length np) p) np); simpl; [|reflexivity].
  destruct (drop (length np) p) as [|idxc rest]; [reflexivity|].
  revert ni. induction nc as [|ch cs IH]; intros [|c idx].
  - reflexivity.
  - generalize (c :: idx) as l. clear.
    induction l as [|d l IH']; simpl; [reflexivity|].
    destruct (Byte.eqb idxc d); simpl; [reflexivity|].
    rewrite IH'. destruct (find_index idxc l); reflexivity.
  - reflexivity.
  - simpl. rewrite (byte_eqb_sym idxc c).
    destruct (Byte.eqb c idxc); [reflexivity|].
    rewrite IH. destruct (find_index idxc idx); reflexivity.
Qed.

Lemma wfb_eq (n : node) :
  wfb n = (length (indices n) =? length (children n))%nat && forallb wfb (children n).
Proof. destruct n; reflexivity. Qed.

Lemma wfb_iff (n : node) :
  wfb n = true <->
  length (indices n) = length (children n) /\ Forall (fun c => wfb c = true) (children n).
Proof.
  rewrite wfb_eq, andb_true_iff, Nat.eqb_eq, forallb_forall, List.Forall_forall. reflexivity.
Qed.

Lemma wfb_mk (pa ind : gostring) (pr : Z) (cs : list node) (hs : option HandlersChain)
    (fp : gostring) :
  length ind = length cs -> Forall (fun c => wfb c = true) cs ->
  wfb (mkNode pa ind pr cs hs fp) = true.
Proof. intros. apply wfb_iff. simpl. auto. Qed.

Lemma incrementChildPrio_wf (n n' : node) (pos j : nat) :
  wfb n = true -> incrementChildPrio n pos = Ret (n', j) -> wfb n' = true.
Proof.
  intros Hwf Hinc. apply wfb_iff in Hwf as [Hl Hall].
  destruct (children n !! pos) as [c|] eqn:Ec;
    [|unfold incrementChildPrio in Hinc; rewrite Ec in Hinc; discriminate].
  destruct (list_elem_of_split_length _ _ _ Ec) as (pre & post & Hcs & ->).
  assert (Hb : is_Some (indices n !! length pre)).
  { apply lookup_lt_is_Some. rewrite Hl, Hcs, length_app. simpl. lia. }
  destruct Hb as [b Eb].
  destruct (list_elem_of_split_length _ _ _ Eb) as (ipre & ipost & Hind & Hlen).
  destruct (incrementChildPrio_shape n pre post c ipre ipost b Hcs Hind (eq_sym Hlen))
    as (pre1 & run & ipre1 & irun & -> & -> & Hl1 & Hl2 & _ & _ & Hres).
  rewrite Hres in Hinc. injection Hinc as <- _.
  rewrite Hcs in Hall. rewrite Hind, Hcs in Hl.
  rewrite !List.Forall_app in Hall. destruct Hall as [[Hp1 Hr] Hcp].
  inversion Hcp as [|? ? Hc Hpost]; subst.
  apply wfb_mk.
  - clear Hres. repeat rewrite length_app in *. simpl in *. repeat rewrite length_app in *. lia.
  - apply List.Forall_app. split; [exact Hp1|]. constructor.
    + rewrite wfb_eq in Hc |- *. exact Hc.
    + apply List.Forall_app. auto.
Qed.

Lemma split_edge_wf (n : node) (i : nat) (p : gostring) :
  wfb n = true -> wfb (split_edge n i p) = true.
Proof.
  intros Hwf. unfold split_edge. destruct (drop i (path n)) as [|b r]; [exact Hwf|].
  apply wfb_mk; [reflexivity|]. constructor; [|constructor].
  rewrite wfb_eq in Hwf |- *. exact Hwf.
Qed.

Lemma walk_wf (fuel : nat) (p fp : gostring) (hs : HandlersChain) (n : node) :
  wfb n = true -> wfb (snd (walk fuel p fp hs n)) = true.
Proof.
  revert p n. induction fuel as [|fuel IH]; intros p n Hwf; [exact Hwf|].
  cbn [walk].
  set (i := longestCommonPrefix p (path n)).
  set (n1 := if (i <? length (path n))%nat then split_edge n i p else n).
  assert (H1 : wfb n1 = true) by (subst n1; destruct (_ <? _)%nat; auto using split_edge_wf).
  clearbody n1. clear Hwf.
  destruct (i <? length p)%nat.
  2:{ destruct (handlers n1); [exact H1|].
      apply wfb_iff in H1 as [Hl Ha]. apply wfb_mk; assumption. }
  destruct (drop i p) as [|c rest]; [exact H1|].
  destruct (Byte.eqb c "/"%byte && (length (children n1) =? 1)%nat).
  - destruct (children n1) as [|ch [|ch2 cs]] eqn:Ec; try exact H1.
    destruct (walk fuel (c :: rest) fp hs (set_priority ch (incr32 (priority ch)))) as [o ch'] eqn:Ew.
    cbn [snd]. unfold set_children. apply wfb_iff in H1 as [Hl Ha]. rewrite Ec in Hl, Ha.
    inversion Ha as [|? ? Hch _]; subst.
    apply wfb_mk; [exact Hl|]. constructor; [|constructor].
    specialize (IH (c :: rest) (set_priority ch (incr32 (priority ch)))).
    rewrite Ew in IH. apply IH. rewrite wfb_eq in Hch |- *. exact Hch.
  - destruct (find_index c (indices n1)) as [j|].
    + destruct (incrementChildPrio n1 j) as [[n' j']|m] eqn:Einc; [|exact H1].
      pose proof (incrementChildPrio_wf _ _ _ _ H1 Einc) as H2.
      destruct (children n' !! j') as [ch|] eqn:Ech; [|exact H2].
      destruct (walk fuel (c :: rest) fp hs ch) as [o ch'] eqn:Ew.
      cbn [snd]. unfold set_children.
      apply wfb_iff in H2 as [Hl Ha].
      apply wfb_mk; [rewrite length_insert; exact Hl|].
      apply Forall_insert; [exact Ha|].
      specialize (IH (c :: rest) ch). rewrite Ew in IH. apply IH.
      exact (proj1 (List.Forall_forall _ _) Ha ch (lookup_In _ _ _ Ech)).
    + set (child := insertChild (mkNode [] [] 0 [] None fp) (c :: rest) fp hs).
      assert (H2 : wfb (mkNode (path n1) (indices n1 ++ [c]) (priority n1)
                      (children n1 ++ [child]) (handlers n1) (fullPath n1)) = true).
      { apply wfb_iff in H1 as [Hl Ha]. apply wfb_mk.
        - rewrite !length_app, Hl. reflexivity.
        - apply List.Forall_app. split; [exact Ha|]. constructor; [reflexivity | constructor]. }
      destruct (incrementChildPrio _ _) as [[n'' pos]|m] eqn:Einc; [|exact H2].
      exact (incrementChildPrio_wf _ _ _ _ H2 Einc).
Qed.

Lemma addRoute_wf (fuel : nat) (p : gostring) (hs : HandlersChain) (n : node) :
  wfb n = true -> wfb (snd (addRoute fuel p hs n)) = true.
Proof.
  intros Hwf. unfold addRoute.
  assert (H1 : wfb (set_priority n (incr32 (priority n))) = true)
    by (rewrite wfb_eq in Hwf |- *; exact Hwf).
  destruct (_ && _); [|exact (walk_wf _ _ _ _ _ H1)].
  cbn [snd]. unfold insertChild. apply wfb_iff in H1 as [Hl Ha]. apply wfb_mk; assumption.
Qed.

Lemma addRoutes_wf (fuel : nat) (rs : list (gostring * HandlersChain)) (n : node) :
  wfb n = true -> wfb (snd (addRoutes fuel rs n)) = true.
Proof.
  revert n. induction rs as [|[p hs] rs IH]; intros n Hwf; [exact Hwf|].
  simpl. pose proof (addRoute_wf fuel p hs n Hwf) as H1.
  destruct (addRoute fuel p hs n) as [[| |] n'] eqn:E; simpl in *; auto.
Qed.

Lemma node_routes_eq (n : node) :
  node_routes n =
  (match handlers n with Some h => [(path n, h)] | None => [] end)
  ++ map (fun qh => (path n ++ fst qh, snd qh)) (concat (map node_routes (children n))).
Proof. destruct n; reflexivity. Qed.

Lemma streqb_true (a b : gostring) : streqb a b = true -> a = b.
Proof. unfold streqb. apply bool_decide_eq_true_1. Qed.

(** On an aligned tree the lookup never panics, and what it finds is a
    registered route. *)
Lemma getValue_wf (n : node) :
  wfb n = true -> forall p,
  getValue n p = Ret None \/
  exists h, getValue n p = Ret (Some h) /\ In (p, h) (node_routes n).
Proof.
  induction n as [n IH] using node_ind'. intros Hwf p.
  pose proof Hwf as Hwf'. apply wfb_iff in Hwf' as [Hl Hall].
  rewrite getValue_eq.
  destruct ((length (path n) <? length p)%nat && streqb (take (length (path n)) p) (path n))
    eqn:Ec.
  - apply andb_true_iff in Ec as [_ Ht]. apply streqb_true in Ht.
    destruct (drop (length (path n)) p) as [|idxc rest] eqn:Ed; [left; reflexivity|].
    destruct (find_index idxc (indices n)) as [i|] eqn:Ef; [|left; reflexivity].
    pose proof (find_index_lt _ _ _ Ef) as Hi. rewrite Hl in Hi.
    apply lookup_lt_is_Some in Hi as [ch Ech]. rewrite Ech.
    pose proof (lookup_In _ _ _ Ech) as Hin.
    specialize (proj1 (List.Forall_forall _ _) IH ch Hin) as IHch.
    specialize (proj1 (List.Forall_forall _ _) Hall ch Hin) as Hch.
    destruct (IHch Hch (idxc :: rest)) as [Hn | (h & Hh & Hr)]; [left; exact Hn|].
    right. exists h. split; [exact Hh|].
    rewrite node_routes_eq. apply in_or_app. right.
    replace p with (path n ++ idxc :: rest)
      by (rewrite <- Ed, <- Ht at 1; apply take_drop).
    apply (in_map (fun qh => (path n ++ fst qh, snd qh)) _ (idxc :: rest, h)).
    apply in_concat. exists (node_routes ch). split; [apply in_map; exact Hin | exact Hr].
  - destruct (streqb p (path n)) eqn:Ep; [|left; reflexivity].
    apply streqb_true in Ep. subst p.
    destruct (handlers n) as [h|] eqn:Eh; [|left; reflexivity].
    right. exists h. split; [reflexivity|].
    rewrite node_routes_eq, Eh. left. reflexivity.
Qed.

(** ** C6: lookup is total *)

(** C6: on every tree built by [addRoute] calls from an empty root (the
    test's [&node{}] or the engine's root with fullPath "/"), also one left
    by a call that panicked or is still running, and for every path (the
    empty one included), getValue never panics: it returns nil or a chain,
    and a chain only for an exact match, i.e. a node whose segments from the
    root concatenate to the path and whose handlers are that chain. *)
Theorem getValue_total (fuel : nat) (fp : gostring)
    (rs : list (gostring * HandlersChain)) (p : gostring) :
  let t := snd (addRoutes fuel rs (mkNode [] [] 0 [] None fp)) in
  getValue t p = Ret None \/
  exists h, getValue t p = Ret (Some h) /\ In (p, h) (node_routes t).
Proof.
  apply getValue_wf, addRoutes_wf. reflexivity.
Qed.

(** ** C7: the lookup loop only reads the tree *)

Lemma getValueLoop_state (fuel : nat) (a : list nat) (p : gostring) (t : node) :
  snd (getValueLoop fuel a p t) = t.
Proof.
  revert a p. induction fuel as [|fuel IH]; intros a p; [reflexivity|].
  simpl. unfold st_bind, read_node, st_ret.
  destruct (node_at t a) as [n|]; [|reflexivity].
  destruct (_ && _); [|destruct (streqb p (path n)); reflexivity].
  destruct (drop (length (path n)) p) as [|idxc rest]; [reflexivity|].
  destruct (find_index idxc (indices n)) as [i|]; [|reflexivity].
  destruct (i <? length (children n))%nat; [apply IH | reflexivity].
Qed.

Lemma node_at_app (t : node) (a : list nat) (i : nat) :
  node_at t (a ++ [i]) = match node_at t a with Some n => children n !! i | None => None end.
Proof.
  revert t. induction a as [|j a IH]; intros t; simpl.
  - destruct (children t !! i); reflexivity.
  - destruct (children t !! j); [apply IH | reflexivity].
Qed.

Lemma depth_child (n ch : node) : In ch (children n) -> (depth ch < depth n)%nat.
Proof.
  intros Hin. destruct n as [np ni npr nc nh nf]. simpl in *.
  assert (H : (depth ch <= list_max (map depth nc))%nat).
  { assert (Hle := le_n (list_max (map depth nc))).
    apply list_max_le in Hle. rewrite List.Forall_forall in Hle. apply Hle, in_map, Hin. }
  lia.
Qed.

(** With fuel above the depth of the node at address [a], the loop computes
    [getValue] on that node. *)
Lemma getValueLoop_getValue (t : node) (fuel : nat) :
  forall (a : list nat) (p : gostring) (n : node),
  node_at t a = Some n -> (depth n < fuel)%nat ->
  getValueLoop fuel a p t = (Some (getValue n p), t).
Proof.
  induction fuel as [|fuel IH]; intros a p n Ha Hd; [lia|].
  simpl. unfold st_bind, read_node, st_ret. rewrite Ha. rewrite (getValue_eq n p).
  destruct (_ && _); [|destruct (streqb p (path n)); reflexivity].
  destruct (drop (length (path n)) p) as [|idxc rest]; [reflexivity|].
  destruct (find_index idxc (indices n)) as [i|]; [|reflexivity].
  destruct (i <? length (children n))%nat eqn:Ei.
  - apply Nat.ltb_lt in Ei. apply lookup_lt_is_Some in Ei as [ch Ech]. rewrite Ech.
    apply IH.
    + rewrite node_at_app, Ha. exact Ech.
    + pose proof (depth_child n ch (lookup_In _ _ _ Ech)). lia.
  - apply Nat.ltb_ge in Ei. rewrite (lookup_ge_None_2 _ _ Ei). reflexivity.
Qed.

(** C7: the lookup loop, which follows child pointers through the tree held
    as state, never changes that state, whatever number of iterations it
    runs; with enough iterations it returns the result of getValue, so two
    lookups of the same path in a row return the same chain and leave the
    tree as it was. *)
Theorem getValue_read_only (t : node) (p : gostring) (fuel : nat)
    (Hf : (depth t < fuel)%nat) :
  (forall fuel' a p', snd (getValueLoop fuel' a p' t) = t) /\
  getValueLoop fuel [] p t = (Some (getValue t p), t) /\
  st_bind (getValueLoop fuel [] p)
    (fun r1 => st_bind (getValueLoop fuel [] p) (fun r2 => st_ret (r1, r2))) t
  = ((Some (getValue t p), Some (getValue t p)), t).
Proof.
  assert (H : getValueLoop fuel [] p t = (Some (getValue t p), t))
    by (apply getValueLoop_getValue; [reflexivity | exact Hf]).
  split; [intros; apply getValueLoop_state|]. split; [exact H|].
  unfold st_bind, st_ret. rewrite H. rewrite H. reflexivity.
Qed.

(** Witness: the test tree, looked up at "/contact". *)
Lemma getValue_read_only_witness :
  (depth (snd test_tree) < 10)%nat /\
  ((forall fuel' a p', snd (getValueLoop fuel' a p' (snd test_tree)) = snd test_tree) /\
   getValueLoop 10 [] (str "/contact") (snd test_tree) =
     (Some (getValue (snd test_tree) (str "/contact")), snd test_tree) /\
   st_bind (getValueLoop 10 [] (str "/contact"))
     (fun r1 => st_bind (getValueLoop 10 [] (str "/contact")) (fun r2 => st_ret (r1, r2)))
     (snd test_tree)
   = ((Some (getValue (snd test_tree) (str "/contact")),
       Some (getValue (snd test_tree) (str "/contact"))), snd test_tree)).
Proof.
  assert (Hd : (depth (snd test_tree) < 10)%nat) by (vm_compute; lia).
  split; [exact Hd|]. exact (getValue_read_only (snd test_tree) (str "/contact") 10 Hd).
Defined.

(** ** C9: one tree per method *)

Lemma streqb_false (a b : gostring) : a <> b -> streqb a b = false.
Proof. unfold streqb. apply bool_decide_eq_false_2. Qed.

Lemma lookup_trees_get (t : methodTrees) (m q : gostring) :
  Engine.lookup_trees t m q = match get t m with Some r => getValue r q | None => Ret None end.
Proof.
  induction t as [|tr t IH]; [reflexivity|]. simpl.
  destruct (streqb (method tr) m); simpl; [reflexivity | exact IH].
Qed.

Lemma get_set_root_ne (t : methodTrees) (m1 m2 : gostring) (r : node) :
  m1 <> m2 -> get (set_root t m1 r) m2 = get t m2.
Proof.
  intros Hne. induction t as [|tr t IH]; [reflexivity|]. simpl.
  destruct (streqb (method tr) m1) eqn:E1; simpl.
  - apply streqb_true in E1. rewrite E1, (streqb_false m1 m2 Hne). reflexivity.
  - rewrite IH. reflexivity.
Qed.

Lemma get_app_ne (t : methodTrees) (m1 m2 : gostring) (r : node) :
  m1 <> m2 -> get (t ++ [mkMethodTree m1 r]) m2 = get t m2.
Proof.
  intros Hne. induction t as [|tr t IH]; simpl.
  - rewrite (streqb_false m1 m2 Hne). reflexivity.
  - destruct (streqb (method tr) m2); [reflexivity | exact IH].
Qed.

(** C9: the request lookup for a method uses the root of the first table
    entry whose method string equals it, and answers no-match at once when
    there is none; registering any route under another method, whether the
    call returns, panics or runs forever, changes no lookup for this one. *)
Theorem method_isolation (fuel : nat) (e : Engine.engine) (m1 m2 p q : gostring)
    (hs : HandlersChain) (Hne : m1 <> m2) :
  Engine.handleHTTPRequest (snd (Engine.addRoute fuel m1 p hs e)) m2 q =
    Engine.handleHTTPRequest e m2 q /\
  Engine.handleHTTPRequest e m2 q =
    match get (Engine.trees e) m2 with Some r => getValue r q | None => Ret None end /\
  (get (Engine.trees e) m2 = None -> Engine.handleHTTPRequest e m2 q = Ret None).
Proof.
  unfold Engine.handleHTTPRequest. rewrite !lookup_trees_get.
  split; [|split; [reflexivity | intros ->; reflexivity]].
  unfold Engine.addRoute.
  destruct p as [|c p']; [reflexivity|].
  destruct (assert1 _ _); [|reflexivity].
  destruct (assert1 (negb (streqb m1 [])) _); [|reflexivity].
  destruct (assert1 (0 <? length hs)%nat _); [|reflexivity].
  destruct (get (Engine.trees e) m1) as [r|].
  - destruct (addRoute fuel (c :: p') hs r) as [o r']. simpl.
    rewrite get_set_root_ne by exact Hne. reflexivity.
  - destruct (addRoute fuel (c :: p') hs _) as [o r']. simpl.
    rewrite get_app_ne by exact Hne. reflexivity.
Qed.

(** Witness: "/x" registered under GET, looked up under POST. *)
Lemma method_isolation_witness :
  str "GET" <> str "POST" /\
  (Engine.handleHTTPRequest
     (snd (Engine.addRoute 10 (str "GET") (str "/x") (fakeHandler 1) Engine.New))
     (str "POST") (str "/x") =
   Engine.handleHTTPRequest Engine.New (str "POST") (str "/x") /\
   Engine.handleHTTPRequest Engine.New (str "POST") (str "/x") =
     match get (Engine.trees Engine.New) (str "POST") with
     | Some r => getValue r (str "/x") | None => Ret None end /\
   (get (Engine.trees Engine.New) (str "POST") = None ->
    Engine.handleHTTPRequest Engine.New (str "POST") (str "/x") = Ret None)).
Proof.
  assert (Hne : str "GET" <> str "POST") by (vm_compute; discriminate).
  split; [exact Hne|].
  exact (method_isolation 10 Engine.New (str "GET") (str "POST") (str "/x") (str "/x")
           (fakeHandler 1) Hne).
Defined.
Lemma lcp_le (a b : gostring) :
  (longestCommonPrefix a b <= length a /\ longestCommonPrefix a b <= length b)%nat.
Proof.
  revert b. induction a as [|x a IH]; intros [|y b]; simpl; try lia.
  destruct (Byte.eqb x y); [specialize (IH b); lia | lia].
Qed.

Lemma lcp_take (a b : gostring) :
  take (longestCommonPrefix a b) a = take (longestCommonPrefix a b) b.
Proof.
  revert b. induction a as [|x a IH]; intros [|y b]; simpl; try reflexivity.
  destruct (Byte.eqb x y) eqn:E; [|reflexivity].
  apply Byte.byte_dec_bl in E. subst. simpl. rewrite IH. reflexivity.
Qed.

Lemma lcp_stop (a b : gostring) (x y : byte) :
  a !! longestCommonPrefix a b = Some x -> b !! longestCommonPrefix a b = Some y -> x <> y.
Proof.
  revert b. induction a as [|z a IH]; intros [|w b]; simpl; try discriminate.
  destruct (Byte.eqb z w) eqn:E; simpl.
  - apply IH.
  - intros H1 H2. injection H1 as <-. injection H2 as <-. intros ->.
    rewrite Byte.byte_dec_lb in E by reflexivity. discriminate.
Qed.

Lemma node_routes_set_priority (c : node) (z : Z) :
  node_routes (set_priority c z) = node_routes c.
Proof. destruct c; reflexivity. Qed.

Lemma split_edge_routes (n : node) (i : nat) (p : gostring) :
  (i < length (path n))%nat -> take i p = take i (path n) ->
  node_routes (split_edge n i p) = node_routes n.
Proof.
  intros Hi Ht. unfold split_edge.
  destruct (drop i (path n)) as [|b l] eqn:Ed.
  { apply (f_equal length) in Ed. rewrite length_drop in Ed. simpl in Ed. lia. }
  assert (Hpn : path n = take i (path n) ++ b :: l) by (rewrite <- Ed; symmetry; apply take_drop).
  rewrite Ht. rewrite (node_routes_eq n).
  remember (take i (path n)) as t eqn:Et. clear Et.
  destruct n as [pa ind pr cs hs fp]. simpl in *.
  rewrite app_nil_r, map_app, map_map.
  assert (Hm : forall C : list (gostring * HandlersChain),
    map (fun x => (t ++ b :: l ++ x.1, x.2)) C = map (fun qh => (pa ++ qh.1, qh.2)) C).
  { intros C. apply map_ext. intros [q h']. simpl. rewrite Hpn, <- app_assoc. reflexivity. }
  rewrite Hm. destruct hs as [h|]; simpl; [rewrite <- Hpn|]; reflexivity.
Qed.
Lemma incrementChildPrio_routes (n n' : node) (pos j : nat) :
  wfb n = true -> incrementChildPrio n pos = Ret (n', j) ->
  Permutation (node_routes n') (node_routes n) /\ path n' = path n /\ handlers n' = handlers n.
Proof.
  intros Hwf Hinc. apply wfb_iff in Hwf as [Hl Hall].
  destruct (children n !! pos) as [c|] eqn:Ec;
    [|unfold incrementChildPrio in Hinc; rewrite Ec in Hinc; discriminate].
  destruct (list_elem_of_split_length _ _ _ Ec) as (pre & post & Hcs & ->).
  assert (Hb : is_Some (indices n !! length pre)).
  { apply lookup_lt_is_Some. rewrite Hl, Hcs, length_app. simpl. lia. }
  destruct Hb as [b Eb].
  destruct (list_elem_of_split_length _ _ _ Eb) as (ipre & ipost & Hind & Hlen).
  destruct (incrementChildPrio_shape n pre post c ipre ipost b Hcs Hind (eq_sym Hlen))
    as (pre1 & run & ipre1 & irun & -> & -> & Hl1 & Hl2 & _ & _ & Hres).
  rewrite Hres in Hinc. injection Hinc as <- _.
  split; [|split; reflexivity].
  rewrite (node_routes_eq n), (node_routes_eq (mkNode _ _ _ _ _ _)), Hcs. cbn [path handlers children].
  apply Permutation_app_head, Permutation_map.
  rewrite !map_app, !concat_app. cbn [map concat]. rewrite node_routes_set_priority, !map_app, !concat_app.
  cbn [map concat]. rewrite <- !app_assoc.
  apply Permutation_app_head. apply Permutation_app_swap_app.
Qed.

Lemma concat_routes_insert (cs : list node) (j : nat) (ch ch' : node) (r : gostring * HandlersChain) :
  cs !! j = Some ch -> Permutation (node_routes ch') (r :: node_routes ch) ->
  Permutation (concat (map node_routes (<[j := ch']> cs))) (r :: concat (map node_routes cs)).
Proof.
  intros Ech Hp.
  destruct (list_elem_of_split_length _ _ _ Ech) as (A & B & -> & ->).
  rewrite insert_mid, !map_app, !concat_app. simpl.
  rewrite Hp. simpl. symmetry. apply Permutation_middle.
Qed.

Lemma routes_prefix_perm (pa : gostring) (l l' : list (gostring * HandlersChain)) q h :
  Permutation l ((q, h) :: l') ->
  Permutation (map (fun qh => (pa ++ fst qh, snd qh)) l)
              ((pa ++ q, h) :: map (fun qh => (pa ++ fst qh, snd qh)) l').
Proof. intros Hp. rewrite Hp. reflexivity. Qed.

(** The walk, when it returns, adds exactly the route [(p, hs)]. *)
Lemma walk_routes (fuel : nat) (p fp : gostring) (hs : HandlersChain) (n n' : node) :
  wfb n = true -> walk fuel p fp hs n = (Done, n') ->
  Permutation (node_routes n') ((p, hs) :: node_routes n).
Proof.
  revert p n n'. induction fuel as [|fuel IH]; intros p n n' Hwf Hw; [discriminate|].
  cbn [walk] in Hw.
  set (i := longestCommonPrefix p (path n)) in Hw.
  set (n1 := if (i <? length (path n))%nat then split_edge n i p else n) in Hw.
  assert (H1 : wfb n1 = true) by (subst n1; destruct (i <? length (path n))%nat; [apply split_edge_wf|]; exact Hwf).
  destruct (lcp_le p (path n)) as [Hip Hin].
  pose proof (lcp_take p (path n)) as Ht. fold i in Hip, Hin, Ht.
  assert (Hr1 : node_routes n1 = node_routes n).
  { subst n1. destruct (i <? length (path n))%nat eqn:E; [|reflexivity].
    apply Nat.ltb_lt in E. apply split_edge_routes; assumption. }
  assert (Hp1 : path n1 = take i p).
  { subst n1. destruct (i <? length (path n))%nat eqn:E.
    - unfold split_edge. apply Nat.ltb_lt in E.
      destruct (drop i (path n)) eqn:Ed; [|reflexivity].
      apply (f_equal length) in Ed. rewrite length_drop in Ed. simpl in Ed. lia.
    - apply Nat.ltb_ge in E. rewrite Ht. rewrite take_ge by lia. reflexivity. }
  clearbody n1. rewrite <- Hr1. clear Hr1 Hwf.
  destruct (i <? length p)%nat eqn:Eip.
  2:{ apply Nat.ltb_ge in Eip.
      assert (Hp : path n1 = p) by (rewrite Hp1; apply take_ge; lia).
      destruct (handlers n1) as [h0|] eqn:Eh; [discriminate|].
      injection Hw as <-. rewrite !node_routes_eq. simpl. rewrite Eh, Hp. reflexivity. }
  apply Nat.ltb_lt in Eip.
  assert (Hpp : p = path n1 ++ drop i p) by (rewrite Hp1; symmetry; apply take_drop).
  destruct (drop i p) as [|c rest] eqn:Ed; [discriminate|].
  destruct (Byte.eqb c "/"%byte && (length (children n1) =? 1)%nat).
  - destruct (children n1) as [|ch [|ch2 cs]] eqn:Ec; try discriminate.
    destruct (walk fuel (c :: rest) fp hs (set_priority ch (incr32 (priority ch)))) as [o ch'] eqn:Ew.
    injection Hw as -> <-.
    apply wfb_iff in H1 as [_ Ha]. rewrite Ec in Ha.
    assert (Hch : wfb ch = true) by (inversion Ha; assumption).
    assert (Hch' : wfb (set_priority ch (incr32 (priority ch))) = true)
      by (rewrite wfb_eq in Hch |- *; exact Hch).
    specialize (IH _ _ _ Hch' Ew). rewrite node_routes_set_priority in IH.
    rewrite !node_routes_eq. unfold set_children. cbn [path handlers children].
    rewrite Ec. simpl. rewrite !app_nil_r.
    rewrite (routes_prefix_perm (path n1) _ _ _ _ IH).
    rewrite <- Hpp. symmetry. apply Permutation_middle.
  - destruct (find_index c (indices n1)) as [j|].
    + destruct (incrementChildPrio n1 j) as [[n2 j']|m] eqn:Einc; [|discriminate].
      destruct (incrementChildPrio_routes _ _ _ _ H1 Einc) as (Hperm & Hpath & _).
      pose proof (incrementChildPrio_wf _ _ _ _ H1 Einc) as H2.
      destruct (children n2 !! j') as [ch|] eqn:Ech; [|discriminate].
      destruct (walk fuel (c :: rest) fp hs ch) as [o ch'] eqn:Ew.
      injection Hw as -> <-.
      apply wfb_iff in H2 as [_ Ha].
      assert (Hch : wfb ch = true)
        by exact (proj1 (List.Forall_forall _ _) Ha ch (lookup_In _ _ _ Ech)).
      specialize (IH _ _ _ Hch Ew).
      rewrite <- Hperm. rewrite !(node_routes_eq (set_children _ _)), (node_routes_eq n2).
      unfold set_children. cbn [path handlers children].
      rewrite (concat_routes_insert _ _ _ _ _ Ech IH). cbn [map fst snd].
      rewrite Hpath, <- Hpp. symmetry. apply Permutation_middle.
    + set (child := insertChild (mkNode [] [] 0 [] None fp) (c :: rest) fp hs) in Hw.
      set (n2 := mkNode (path n1) (indices n1 ++ [c]) (priority n1)
                   (children n1 ++ [child]) (handlers n1) (fullPath n1)) in Hw.
      assert (H2 : wfb n2 = true).
      { apply wfb_iff in H1 as [Hl Ha]. apply wfb_mk.
        - rewrite !length_app, Hl. reflexivity.
        - apply List.Forall_app. split; [exact Ha|]. constructor; [reflexivity | constructor]. }
      destruct (incrementChildPrio n2 _) as [[n3 pos]|m] eqn:Einc; [|discriminate].
      injection Hw as <-.
      destruct (incrementChildPrio_routes _ _ _ _ H2 Einc) as (Hperm & _).
      rewrite Hperm. subst n2. rewrite !(node_routes_eq (mkNode _ _ _ _ _ _)), (node_routes_eq n1).
      cbn [path handlers children].
      rewrite map_app, concat_app, map_app. simpl.
      rewrite <- Hpp. 
      rewrite app_assoc. symmetry. apply Permutation_cons_append.
Qed.
Lemma addRoute_routes (fuel : nat) (p : gostring) (hs : HandlersChain) (n n' : node) :
  wfb n = true -> (path n = [] -> children n = [] -> handlers n = None) ->
  addRoute fuel p hs n = (Done, n') ->
  Permutation (node_routes n') ((p, hs) :: node_routes n).
Proof.
  intros Hwf Hinv Ha. unfold addRoute in Ha.
  destruct ((length (path (set_priority n (incr32 (priority n)))) =? 0)%nat &&
            (length (children (set_priority n (incr32 (priority n)))) =? 0)%nat) eqn:E.
  - injection Ha as <-. apply andb_true_iff in E as [E1 E2].
    apply Nat.eqb_eq, nil_length_inv in E1, E2. cbn [set_priority path children] in E1, E2.
    rewrite !node_routes_eq. cbn [insertChild set_priority path children handlers].
    rewrite E2, (Hinv E1 E2). reflexivity.
  - apply walk_routes in Ha; [|rewrite wfb_eq in Hwf |- *; exact Hwf].
    rewrite node_routes_set_priority in Ha. exact Ha.
Qed.

Lemma empty_inv_after (n n' : node) (p : gostring) (hs : HandlersChain) :
  p <> [] -> Permutation (node_routes n') ((p, hs) :: node_routes n) -> empty_inv n'.
Proof.
  intros Hp Hperm Hpa Hch. destruct (handlers n') as [h|] eqn:Eh; [|reflexivity].
  exfalso. rewrite node_routes_eq, Eh, Hpa, Hch in Hperm. cbn in Hperm.
  pose proof (Permutation_length Hperm) as Hl. simpl in Hl.
  destruct (node_routes n); [|simpl in Hl; lia].
  apply Permutation_length_1 in Hperm. injection Hperm as Hq _. auto.
Qed.

Lemma addRoutes_routes_gen (fuel : nat) (rs : list (gostring * HandlersChain)) (n : node) :
  wfb n = true -> empty_inv n -> Forall (fun r => fst r <> []) rs ->
  fst (addRoutes fuel rs n) = Done ->
  Permutation (node_routes (snd (addRoutes fuel rs n))) (rev rs ++ node_routes n).
Proof.
  revert n. induction rs as [|[p hs] rs IH]; intros n Hwf Hinv Hne Hd; [reflexivity|].
  inversion Hne as [|? ? Hp Hne']; subst. simpl in Hp.
  cbn [addRoutes] in Hd |- *.
  destruct (addRoute fuel p hs n) as [o n'] eqn:Ea.
  destruct o; try discriminate.
  pose proof (addRoute_routes _ _ _ _ _ Hwf Hinv Ea) as Hr.
  assert (Hwf' : wfb n' = true) by (pose proof (addRoute_wf fuel p hs n Hwf) as W; rewrite Ea in W; exact W).
  rewrite (IH n' Hwf' (empty_inv_after _ _ _ _ Hp Hr) Hne' Hd), Hr.
  simpl. rewrite <- app_assoc. reflexivity.
Qed.


Lemma set_root_methods (t : methodTrees) (m : gostring) (r : node) :
  map method (set_root t m r) = map method t.
Proof.
  induction t as [|tr t IH]; simpl; [reflexivity|].
  destruct (streqb (method tr) m) eqn:E; simpl.
  - apply streqb_true in E. rewrite E. reflexivity.
  - rewrite IH. reflexivity.
Qed.

Lemma get_none (t : methodTrees) (m : gostring) :
  get t m = None -> m ∉ map method t.
Proof.
  induction t as [|tr t IH]; simpl; [intros _; apply not_elem_of_nil|].
  destruct (streqb (method tr) m) eqn:E; [discriminate|].
  intros H Hin. apply elem_of_cons in Hin as [Hin|Hin].
  - subst m. unfold streqb in E. rewrite bool_decide_eq_false in E. exact (E eq_refl).
  - exact (IH H Hin).
Qed.

(** The checks of [engine.addRoute], in the order of the source. *)
Lemma engine_addRoute_checks (fuel : nat) (m p : gostring) (hs : HandlersChain) (e : Engine.engine)
    (o : outcome) (e' : Engine.engine) :
  Engine.addRoute fuel m p hs e = (o, e') ->
  (exists msg, o = Panicked msg /\ e' = e) \/
  (exists c p', p = c :: p' /\ c = "/"%byte /\ m <> [] /\ hs <> [] /\
   match get (Engine.trees e) m with
   | Some r => exists r', addRoute fuel p hs r = (o, r') /\
                          e' = Engine.mkEngine (set_root (Engine.trees e) m r')
   | None => exists r', addRoute fuel p hs (mkNode [] [] 0 [] None (str "/")) = (o, r') /\
                        e' = Engine.mkEngine (Engine.trees e ++ [mkMethodTree m r'])
   end).
Proof.
  unfold Engine.addRoute. intros H.
  destruct p as [|c p']; [left; injection H as <- <-; eexists; split; reflexivity|].
  unfold assert1 in H.
  destruct (Byte.eqb c "/"%byte) eqn:Ec; [|left; injection H as <- <-; eexists; split; reflexivity].
  destruct (negb (streqb m [])) eqn:Em; [|left; injection H as <- <-; eexists; split; reflexivity].
  destruct (0 <? length hs)%nat eqn:Eh; [|left; injection H as <- <-; eexists; split; reflexivity].
  right. exists c, p'. split; [reflexivity|].
  split; [apply Byte.byte_dec_bl; exact Ec|].
  split; [intros ->; discriminate|].
  split; [intros ->; discriminate|].
  destruct (get (Engine.trees e) m) as [r|].
  - destruct (addRoute fuel (c :: p') hs r) as [o1 r'] eqn:Ea. injection H as <- <-. eauto.
  - destruct (addRoute fuel (c :: p') hs _) as [o1 r'] eqn:Ea. injection H as <- <-. eauto.
Qed.




Lemma engine_addRoute_methods_nodup (fuel : nat) (m p : gostring) (hs : HandlersChain)
    (e : Engine.engine) :
  NoDup (map method (Engine.trees e)) ->
  NoDup (map method (Engine.trees (snd (Engine.addRoute fuel m p hs e)))).
Proof.
  intros Hnd. destruct (Engine.addRoute fuel m p hs e) as [o e'] eqn:Ea. simpl.
  destruct (engine_addRoute_checks _ _ _ _ _ _ _ Ea) as [(msg & _ & ->) | (c & p' & _ & _ & _ & _ & Hcase)];
    [exact Hnd|].
  destruct (get (Engine.trees e) m) as [r|] eqn:Eg; destruct Hcase as (r' & _ & ->); cbn [Engine.trees].
  - rewrite set_root_methods. exact Hnd.
  - rewrite map_app. simpl. apply NoDup_app. split; [exact Hnd|]. split.
    + intros x Hx Hx'. apply list_elem_of_singleton in Hx'. subst x. exact (get_none _ _ Eg Hx).
    + apply NoDup_singleton.
Qed.

(** ** Extras: the common prefix, and the routes a registration adds *)

(** X1: [longestCommonPrefix a b] is the length of the longest common prefix
    of [a] and [b]: it is within both lengths, the two prefixes of that length
    are equal, and at that offset one string has ended or the bytes differ. *)
Theorem longestCommonPrefix_spec (a b : gostring) :
  let i := longestCommonPrefix a b in
  (i <= length a)%nat /\ (i <= length b)%nat /\ take i a = take i b /\
  (a !! i = None \/ b !! i = None \/ exists x y, a !! i = Some x /\ b !! i = Some y /\ x <> y).
Proof.
  intros i. destruct (lcp_le a b) as [H1 H2].
  split; [exact H1|]. split; [exact H2|]. split; [apply lcp_take|].
  destruct (a !! i) as [x|] eqn:Ea; [|left; reflexivity].
  destruct (b !! i) as [y|] eqn:Eb; [|right; left; reflexivity].
  right; right. exists x, y. split; [reflexivity|]. split; [reflexivity|].
  exact (lcp_stop a b x y Ea Eb).
Qed.

(** X2: the edge split of [addRoute] at the common-prefix length changes no
    registered route: every path keeps the chain it had. *)
Theorem split_edge_keeps_routes (n : node) (i : nat) (p : gostring)
    (Hi : (i < length (path n))%nat) (Ht : take i p = take i (path n)) :
  node_routes (split_edge n i p) = node_routes n.
Proof. exact (split_edge_routes n i p Hi Ht). Qed.

Lemma split_edge_keeps_routes_witness :
  (2 < length (path doc_node))%nat /\ take 2 (str "/dx") = take 2 (path doc_node) /\
  node_routes (split_edge doc_node 2 (str "/dx")) = node_routes doc_node.
Proof.
  assert (Hi : (2 < length (path doc_node))%nat) by (simpl; lia).
  assert (Ht : take 2 (str "/dx") = take 2 (path doc_node)) by reflexivity.
  split; [exact Hi|]. split; [exact Ht|].
  exact (split_edge_keeps_routes doc_node 2 (str "/dx") Hi Ht).
Defined.



(** X4: a call of [node.addRoute] that returns adds exactly the route
    [(path, handlers)] to the routes registered in the tree and keeps all the
    others, on an aligned tree whose root is not an empty node carrying a
    chain. *)
Theorem addRoute_adds_route (fuel : nat) (p : gostring) (hs : HandlersChain) (n n' : node)
    (Hwf : wfb n = true) (Hempty : path n = [] -> children n = [] -> handlers n = None)
    (Hdone : addRoute fuel p hs n = (Done, n')) :
  Permutation (node_routes n') ((p, hs) :: node_routes n).
Proof. exact (addRoute_routes fuel p hs n n' Hwf Hempty Hdone). Qed.

Lemma addRoute_adds_route_witness :
  wfb (snd test_tree) = true /\
  (path (snd test_tree) = [] -> children (snd test_tree) = [] -> handlers (snd test_tree) = None) /\
  match addRoute 100 (str "/doc/go2") (fakeHandler 12) (snd test_tree) with
  | (Done, n') => Permutation (node_routes n')
                    ((str "/doc/go2", fakeHandler 12) :: node_routes (snd test_tree))
  | _ => False
  end.
Proof.
  assert (Hwf : wfb (snd test_tree) = true) by (vm_compute; reflexivity).
  assert (He : path (snd test_tree) = [] -> children (snd test_tree) = [] ->
               handlers (snd test_tree) = None)
    by (vm_compute; discriminate).
  split; [exact Hwf|]. split; [exact He|].
  destruct (addRoute 100 (str "/doc/go2") (fakeHandler 12) (snd test_tree)) as [o n'] eqn:E.
  destruct o; [|vm_compute in E; discriminate | vm_compute in E; discriminate].
  exact (addRoute_adds_route 100 _ _ (snd test_tree) n' Hwf He E).
Defined.

(** X5: when every call of a sequence of registrations of non-empty paths on
    an empty root returns, the routes of the final tree are exactly the
    registered pairs, each as often as it was registered. *)
Theorem addRoutes_registers_exactly (fuel : nat) (fp : gostring)
    (rs : list (gostring * HandlersChain))
    (Hne : Forall (fun r => fst r <> []) rs)
    (Hdone : fst (addRoutes fuel rs (mkNode [] [] 0 [] None fp)) = Done) :
  Permutation (node_routes (snd (addRoutes fuel rs (mkNode [] [] 0 [] None fp)))) rs.
Proof.
  rewrite (addRoutes_routes_gen fuel rs (mkNode [] [] 0 [] None fp) eq_refl (fun _ _ => eq_refl) Hne Hdone).
  simpl. rewrite app_nil_r. symmetry. apply Permutation_rev.
Qed.

Lemma test_routes_nonempty : Forall (fun r => fst r <> []) test_routes.
Proof. vm_compute. repeat constructor; discriminate. Qed.

Lemma addRoutes_registers_exactly_witness :
  Forall (fun r => fst r <> []) test_routes /\
  fst (addRoutes 100 test_routes (mkNode [] [] 0 [] None [])) = Done /\
  Permutation (node_routes (snd (addRoutes 100 test_routes (mkNode [] [] 0 [] None []))))
              test_routes.
Proof.
  assert (Hd : fst (addRoutes 100 test_routes (mkNode [] [] 0 [] None [])) = Done)
    by (vm_compute; reflexivity).
  split; [exact test_routes_nonempty|]. split; [exact Hd|].
  exact (addRoutes_registers_exactly 100 [] test_routes test_routes_nonempty Hd).
Defined.

(** X6: on a tree built from an empty root by registrations of non-empty
    paths that all returned, a chain found by [getValue] for a path is one
    registered for exactly that path. *)
Theorem addRoutes_lookup_registered (fuel : nat) (fp : gostring)
    (rs : list (gostring * HandlersChain)) (p : gostring) (h : HandlersChain)
    (Hne : Forall (fun r => fst r <> []) rs)
    (Hdone : fst (addRoutes fuel rs (mkNode [] [] 0 [] None fp)) = Done)
    (Hfound : getValue (snd (addRoutes fuel rs (mkNode [] [] 0 [] None fp))) p = Ret (Some h)) :
  In (p, h) rs.
Proof.
  set (t := snd (addRoutes fuel rs (mkNode [] [] 0 [] None fp))) in Hfound.
  assert (Hwf : wfb t = true) by (apply addRoutes_wf; reflexivity).
  destruct (getValue_wf t Hwf p) as [Hn | (h' & Hh & Hin)]; [congruence|].
  rewrite Hfound in Hh. injection Hh as <-.
  apply (Permutation_in _ (addRoutes_routes_gen fuel rs (mkNode [] [] 0 [] None fp) eq_refl (fun _ _ => eq_refl) Hne Hdone)) in Hin.
  rewrite app_nil_r in Hin. apply in_rev in Hin. exact Hin.
Qed.

Lemma addRoutes_lookup_registered_witness :
  getValue (snd (addRoutes 100 test_routes (mkNode [] [] 0 [] None []))) (str "/doc/go1.html")
    = Ret (Some (fakeHandler 8)) /\
  In (str "/doc/go1.html", fakeHandler 8) test_routes.
Proof.
  assert (Hd : fst (addRoutes 100 test_routes (mkNode [] [] 0 [] None [])) = Done)
    by (vm_compute; reflexivity).
  assert (Hg : getValue (snd (addRoutes 100 test_routes (mkNode [] [] 0 [] None [])))
                 (str "/doc/go1.html") = Ret (Some (fakeHandler 8))) by (vm_compute; reflexivity).
  split; [exact Hg|].
  exact (addRoutes_lookup_registered 100 [] test_routes _ _ test_routes_nonempty Hd Hg).
Defined.

(** ** Extras: the engine's method table *)

Lemma engine_addRoutes_nodup (fuel : nat) (regs : list (gostring * gostring * HandlersChain))
    (e : Engine.engine) :
  NoDup (map method (Engine.trees e)) ->
  NoDup (map method (Engine.trees (snd (engine_addRoutes fuel regs e)))).
Proof.
  revert e. induction regs as [|[[m p] hs] regs IH]; intros e Hnd; [exact Hnd|].
  cbn [engine_addRoutes].
  pose proof (engine_addRoute_methods_nodup fuel m p hs e Hnd) as H1.
  destruct (Engine.addRoute fuel m p hs e) as [[| |] e'] eqn:E; simpl in H1 |- *; auto.
Qed.

(** X7: the method table of an engine built by [engine.addRoute] calls never
    holds two entries for the same method, whatever the calls' outcomes. *)
Theorem engine_methods_unique (fuel : nat) (regs : list (gostring * gostring * HandlersChain)) :
  NoDup (map method (Engine.trees (snd (engine_addRoutes fuel regs Engine.New)))).
Proof. apply engine_addRoutes_nodup. constructor. Qed.

(** X8: [engine.addRoute] panics, leaving the engine unchanged, on an empty
    path (index out of range), on a path not beginning with ['/'], on an empty
    method and on an empty chain, checked in that order. *)
Theorem engine_addRoute_rejects (fuel : nat) (m p : gostring) (hs : HandlersChain)
    (e : Engine.engine) :
  (p = [] -> Engine.addRoute fuel m p hs e = (Panicked "runtime error: index out of range", e)) /\
  (forall c p', p = c :: p' -> c <> "/"%byte ->
     Engine.addRoute fuel m p hs e = (Panicked "path must begin with '/'", e)) /\
  (forall p', p = "/"%byte :: p' -> m = [] ->
     Engine.addRoute fuel m p hs e = (Panicked "HTTP method can not be empty", e)) /\
  (forall p', p = "/"%byte :: p' -> m <> [] -> hs = [] ->
     Engine.addRoute fuel m p hs e = (Panicked "there must be at least one handler", e)).
Proof.
  unfold Engine.addRoute, assert1. split; [intros ->; reflexivity|]. split; [|split].
  - intros c p' -> Hc. destruct (Byte.eqb c "/"%byte) eqn:E; [|reflexivity].
    apply Byte.byte_dec_bl in E. contradiction.
  - intros p' -> ->. reflexivity.
  - intros p' -> Hm ->. rewrite (streqb_false _ _ Hm). reflexivity.
Qed.

Lemma engine_addRoute_rejects_witness :
  Engine.addRoute 10 (str "GET") [] (fakeHandler 1) Engine.New =
    (Panicked "runtime error: index out of range", Engine.New) /\
  Engine.addRoute 10 (str "GET") (str "x") (fakeHandler 1) Engine.New =
    (Panicked "path must begin with '/'", Engine.New) /\
  Engine.addRoute 10 [] (str "/x") (fakeHandler 1) Engine.New =
    (Panicked "HTTP method can not be empty", Engine.New) /\
  Engine.addRoute 10 (str "GET") (str "/x") [] Engine.New =
    (Panicked "there must be at least one handler", Engine.New).
Proof.
  split; [exact (proj1 (engine_addRoute_rejects 10 (str "GET") [] (fakeHandler 1) Engine.New) eq_refl)|].
  split; [exact (proj1 (proj2 (engine_addRoute_rejects 10 (str "GET") (str "x") (fakeHandler 1) Engine.New))
                   "x"%byte [] eq_refl ltac:(discriminate))|].
  split; [exact (proj1 (proj2 (proj2 (engine_addRoute_rejects 10 [] (str "/x") (fakeHandler 1) Engine.New)))
                   (str "x") eq_refl eq_refl)|].
  exact (proj2 (proj2 (proj2 (engine_addRoute_rejects 10 (str "GET") (str "/x") [] Engine.New)))
           (str "x") eq_refl ltac:(discriminate) eq_refl).
Defined.



(** ** Extras: flow control of the context *)

Lemma index_int_some {A} (l : list A) (i : Z) (x : A) :
  0 <= i -> nth_error l (Z.to_nat i) = Some x -> index_int l i = Ret x.
Proof.
  intros H0 Hn. unfold index_int, index. rewrite (proj2 (Z.ltb_ge _ _) H0), Hn. reflexivity.
Qed.

Section CtxFacts.
Import Ctx.

Lemma int8_id (z : Z) : -128 <= z <= 127 -> int8 z = z.
Proof.
  intros H. unfold int8. rewrite Z.mod_small by lia. lia.
Qed.

Lemma set_index_same (c : Context) : set_index c (index c) = c.
Proof. destruct c; reflexivity. Qed.

Lemma set_index_twice (c : Context) (i j : Z) : set_index (set_index c i) j = set_index c j.
Proof. destruct c; reflexivity. Qed.

Section FlowFacts.
Variable call : HandlerFunc -> Context -> Context.

Lemma run_chain_set_index (i j : Z) (hs : HandlersChain) (c : Context) :
  run_chain call i hs (set_index c j) = run_chain call i hs c.
Proof.
  destruct hs as [|h hs]; simpl; rewrite set_index_twice; reflexivity.
Qed.

Lemma next_step (f : nat) (c : Context) (h : HandlerFunc) :
  0 <= index c -> index c < int8 (Z.of_nat (length (handlers c))) ->
  nth_error (handlers c) (Z.to_nat (index c)) = Some h ->
  next_loop call (S f) c = next_loop call f (set_index (call h c) (int8 (index (call h c) + 1))).
Proof.
  intros H0 Hlt Hn. cbn [next_loop].
  rewrite (proj2 (Z.ltb_lt _ _) Hlt), (index_int_some _ _ h H0 Hn). reflexivity.
Qed.

Lemma next_prefix (hs rest : HandlersChain) :
  forall (pre : HandlersChain) (i : Z) (c : Context) (fuel : nat),
  handlers c = hs -> Z.of_nat (length hs) <= 127 -> index c = i -> 0 <= i ->
  drop (Z.to_nat i) hs = pre ++ rest -> Forall (pres call) pre -> (length pre <= fuel)%nat ->
  next_loop call fuel c = next_loop call (fuel - length pre) (run_chain call i pre c) /\
  handlers (run_chain call i pre c) = hs /\ index (run_chain call i pre c) = i + Z.of_nat (length pre).
Proof.
  induction pre as [|h pre IH]; intros i c fuel Hh Hlen Hi H0 Hd Hp Hf.
  - simpl. rewrite <- Hi, set_index_same, Nat.sub_0_r. split; [reflexivity|]. split; [exact Hh | lia].
  - apply Forall_cons in Hp as [Hph Hp'].
    destruct fuel as [|f]; [simpl in Hf; lia|].
    rewrite <- Hh, <- Hi in Hd. rewrite <- Hh in Hlen.
    assert (Hn : nth_error (handlers c) (Z.to_nat (index c)) = Some h).
    { rewrite <- (take_drop (Z.to_nat (index c)) (handlers c)), Hd.
      rewrite nth_error_app2; rewrite length_take.
      - replace (Z.to_nat (index c) - Nat.min (Z.to_nat (index c)) (length (handlers c)))%nat with O.
        + reflexivity.
        + assert (Z.to_nat (index c) < length (handlers c))%nat.
          { apply (f_equal length) in Hd. rewrite length_drop, length_app in Hd. simpl in Hd. lia. }
          lia.
      - lia. }
    assert (Hlt : (Z.to_nat (index c) < length (handlers c))%nat).
    { apply (f_equal length) in Hd. rewrite length_drop, length_app in Hd. simpl in Hd. lia. }
    rewrite (next_step f c h) by (try rewrite int8_id by lia; try lia; exact Hn).
    destruct (Hph c) as [Hh1 Hi1].
    set (c1 := set_index (call h c) (int8 (index (call h c) + 1))).
    assert (Hc1 : index c1 = index c + 1) by (unfold c1; simpl; rewrite Hi1; apply int8_id; lia).
    destruct (IH (index c + 1) c1 f) as (IH1 & IH2 & IH3).
    + unfold c1. simpl. rewrite Hh1. exact Hh.
    + rewrite <- Hh. exact Hlen.
    + exact Hc1.
    + lia.
    + replace (Z.to_nat (index c + 1)) with (Z.to_nat (index c) + 1)%nat by lia.
      rewrite <- drop_drop, <- Hh, Hd. reflexivity.
    + exact Hp'.
    + simpl in Hf. lia.
    + cbn [run_chain length]. rewrite <- Hi, set_index_same.
      unfold c1 in *. rewrite run_chain_set_index in IH1, IH2, IH3.
      split; [rewrite IH1; f_equal|]. split; [exact IH2 | rewrite IH3; lia].
Qed.

End FlowFacts.
End CtxFacts.

Section FlowTheorems.
Import Ctx.
Variable call : HandlerFunc -> Context -> Context.

(** X10: on the context as [handleHTTPRequest] prepares it ([reset], then
    the found chain), when the chain has at most 127 handlers and no handler
    reassigns [c.handlers] or [c.index], [Next] calls every handler once, in
    chain order, each with [c.index] at its own position, and leaves
    [c.index] at the chain length. *)
Theorem Next_runs_chain (c : Context) (hs : HandlersChain) (fuel : nat) :
  (length hs <= 127)%nat -> Forall (pres call) hs -> (length hs < fuel)%nat ->
  Next call fuel (set_handlers (reset c) hs) =
    Some (Ret (run_chain call 0 hs (set_handlers (reset c) hs))).
Proof.
  intros Hl Hp Hf. unfold Next.
  set (c0 := set_handlers (reset c) hs).
  destruct (next_prefix call hs [] hs 0 (set_index c0 (int8 (index c0 + 1))) fuel)
    as (H1 & H2 & H3); try (simpl; lia); try rewrite app_nil_r; try reflexivity; try exact Hp.
  rewrite H1, run_chain_set_index in *.
  destruct (fuel - length hs)%nat as [|f] eqn:Ef; [lia|].
  cbn [next_loop]. rewrite H2, H3, int8_id by lia.
  rewrite (proj2 (Z.ltb_ge _ _)) by lia. reflexivity.
Qed.

(** X11: in a chain of at most [abortIndex + 1 = 64] handlers, when the
    handlers before position [k] leave [c.handlers] and [c.index] alone and
    handler [k] calls [Abort], [Next] returns right after handler [k]: no
    later handler is called, and the context is aborted. *)
Theorem Next_abort_stops (c : Context) (pre post : HandlersChain) (h : HandlerFunc) (fuel : nat) :
  (length (pre ++ h :: post) <= Z.to_nat abortIndex + 1)%nat ->
  Forall (pres call) pre ->
  (forall c', handlers (call h c') = handlers c' /\ index (call h c') = abortIndex) ->
  (length pre + 1 < fuel)%nat ->
  let c0 := set_handlers (reset c) (pre ++ h :: post) in
  let c' := set_index (call h (run_chain call 0 pre c0)) (abortIndex + 1) in
  Next call fuel c0 = Some (Ret c') /\ IsAborted c' = true.
Proof.
  intros Hl Hp Habort Hf c0 c'.
  assert (Ha : abortIndex = 63) by reflexivity.
  rewrite Ha in Hl. simpl in Hl.
  split; [|unfold c', IsAborted; simpl; rewrite Ha; reflexivity].
  unfold Next.
  destruct (next_prefix call (pre ++ h :: post) (h :: post) pre 0
              (set_index c0 (int8 (index c0 + 1))) fuel)
    as (H1 & H2 & H3); try (simpl; lia); try reflexivity; try exact Hp.
  rewrite run_chain_set_index in H1, H2, H3. rewrite H1.
  set (X := run_chain call 0 pre c0) in *.
  destruct (fuel - length pre)%nat as [|f] eqn:Ef; [lia|].
  rewrite (next_step call f X h).
  - destruct (Habort X) as [Hh Hi]. rewrite Hi, Ha.
    destruct f as [|f]; [lia|]. cbn [next_loop Ctx.index Ctx.handlers set_index].
    rewrite Hh, H2. rewrite (int8_id (63 + 1)) by lia.
    rewrite (proj2 (Z.ltb_ge _ _)); [unfold c'; rewrite Ha; reflexivity|].
    rewrite int8_id by lia. lia.
  - lia.
  - rewrite H2, H3, int8_id by lia. rewrite length_app. simpl. lia.
  - rewrite H2, H3. replace (Z.to_nat (0 + Z.of_nat (length pre))) with (length pre) by lia.
    rewrite nth_error_app2 by lia. rewrite Nat.sub_diag. reflexivity.
Qed.

(** X12: in a chain of 65 to 127 handlers, [Abort] in a handler at a
    position up to 63 does not end the chain: the handlers between it and
    position 64 are skipped, and every handler from position 64 on is still
    called, in order. *)
Theorem Next_abort_long_chain (c : Context) (pre post : HandlersChain) (h : HandlerFunc)
    (fuel : nat) :
  let hs := pre ++ h :: post in
  (Z.to_nat abortIndex + 1 < length hs <= 127)%nat -> (length pre <= Z.to_nat abortIndex)%nat ->
  Forall (pres call) pre ->
  (forall c', handlers (call h c') = handlers c' /\ index (call h c') = abortIndex) ->
  Forall (pres call) (drop (Z.to_nat abortIndex + 1) hs) ->
  (length hs + 1 < fuel)%nat ->
  let c0 := set_handlers (reset c) hs in
  Next call fuel c0 =
    Some (Ret (run_chain call (abortIndex + 1) (drop (Z.to_nat abortIndex + 1) hs)
                 (call h (run_chain call 0 pre c0)))).
Proof.
  intros hs Hl Hpre Hp Habort Hq Hf c0.
  assert (Ha : abortIndex = 63) by reflexivity. rewrite Ha in *. simpl in Hl, Hpre, Hq |- *.
  unfold Next.
  destruct (next_prefix call hs (h :: post) pre 0 (set_index c0 (int8 (index c0 + 1))) fuel)
    as (H1 & H2 & H3); try (simpl; lia); try reflexivity; try exact Hp.
  rewrite run_chain_set_index in H1, H2, H3. rewrite H1.
  set (X := run_chain call 0 pre c0) in *.
  destruct (fuel - length pre)%nat as [|f] eqn:Ef; [lia|].
  rewrite (next_step call f X h).
  2:{ lia. }
  2:{ rewrite H2, H3, int8_id by lia. lia. }
  2:{ rewrite H2, H3. replace (Z.to_nat (0 + Z.of_nat (length pre))) with (length pre) by lia.
      subst hs. rewrite nth_error_app2 by lia. rewrite Nat.sub_diag. reflexivity. }
  destruct (Habort X) as [Hh Hi]. rewrite Hi, (int8_id (63 + 1)) by lia.
  set (Y := set_index (call h X) (63 + 1)).
  destruct (next_prefix call hs [] (drop 64 hs) 64 Y f) as (G1 & G2 & G3);
    try (simpl; lia); try (unfold Y; simpl; rewrite Hh; exact H2);
    try (rewrite app_nil_r; reflexivity); try exact Hq.
  { rewrite length_drop. lia. }
  unfold Y in *. rewrite run_chain_set_index in G1, G2, G3. rewrite G1.
  destruct (f - length (drop 64 hs))%nat as [|g] eqn:Eg; [rewrite length_drop in Eg; lia|].
  cbn [next_loop]. rewrite G2, G3, int8_id by lia. rewrite length_drop.
  rewrite (proj2 (Z.ltb_ge _ _)) by lia. reflexivity.
Qed.

(** X13: a chain of 128 to 255 handlers is not run at all: [int8(len)] is
    negative, so [Next] calls no handler and only moves [c.index] to 0. *)
Theorem Next_huge_chain (c : Context) (hs : HandlersChain) (fuel : nat) :
  (128 <= length hs <= 255)%nat ->
  let c0 := set_handlers (reset c) hs in
  Next call (S fuel) c0 = Some (Ret (set_index c0 0)).
Proof.
  intros Hl c0. unfold Next. cbn [next_loop Ctx.index Ctx.handlers set_index c0 reset set_handlers].
  replace (int8 (-1 + 1)) with 0 by reflexivity.
  assert (Hn : int8 (Z.of_nat (length hs)) = Z.of_nat (length hs) - 256).
  { unfold int8. rewrite <- (Z.mod_unique (Z.of_nat (length hs) + 128) 256 1 (Z.of_nat (length hs) - 128)); lia. }
  rewrite Hn, (proj2 (Z.ltb_ge _ _)) by lia. reflexivity.
Qed.

End FlowTheorems.
Ltac pres_all :=
  repeat (apply List.Forall_cons; [intros ?; split; reflexivity|]); apply List.Forall_nil.

Lemma Next_runs_chain_witness :
  Ctx.Next log_call 4 (Ctx.set_handlers (Ctx.reset ctx0) [1; 2; 3]%nat) =
    Some (Ret (Ctx.run_chain log_call 0 [1; 2; 3]%nat (Ctx.set_handlers (Ctx.reset ctx0) [1; 2; 3]%nat))).
Proof.
  apply (Next_runs_chain log_call ctx0 [1; 2; 3]%nat 4); [simpl; lia | pres_all | simpl; lia].
Defined.

Lemma Next_abort_stops_witness :
  let c0 := Ctx.set_handlers (Ctx.reset ctx0) ([1] ++ 2 :: [3])%nat in
  let c' := Ctx.set_index (abort_call 2%nat (Ctx.run_chain abort_call 0 [1%nat] c0)) (Ctx.abortIndex + 1) in
  Ctx.Next abort_call 4 c0 = Some (Ret c') /\ Ctx.IsAborted c' = true.
Proof.
  apply (Next_abort_stops abort_call ctx0 [1%nat] [3%nat] 2%nat 4).
  - vm_compute. lia.
  - pres_all.
  - intros c'. split; reflexivity.
  - simpl. lia.
Defined.

Lemma Next_abort_long_chain_witness :
  let hs := ([1] ++ 2 :: repeat 5 70)%nat in
  let c0 := Ctx.set_handlers (Ctx.reset ctx0) hs in
  Ctx.Next abort_call 80 c0 =
    Some (Ret (Ctx.run_chain abort_call (Ctx.abortIndex + 1) (drop (Z.to_nat Ctx.abortIndex + 1) hs)
                 (abort_call 2%nat (Ctx.run_chain abort_call 0 [1%nat] c0)))).
Proof.
  apply (Next_abort_long_chain abort_call ctx0 [1%nat] (repeat 5%nat 70) 2%nat 80).
  - vm_compute. lia.
  - vm_compute. lia.
  - pres_all.
  - intros c'. split; reflexivity.
  - vm_compute. pres_all.
  - vm_compute. lia.
Defined.

Lemma Next_huge_chain_witness :
  Ctx.Next log_call 1 (Ctx.set_handlers (Ctx.reset ctx0) (repeat 1%nat 128)) =
    Some (Ret (Ctx.set_index (Ctx.set_handlers (Ctx.reset ctx0) (repeat 1%nat 128)) 0)).
Proof.
  apply (Next_huge_chain log_call ctx0 (repeat 1%nat 128) 0). rewrite repeat_length. lia.
Defined.
(** ** Extras: handler chains, the mode switch, debug output and the context keys *)

Lemma copy_into_nil (l : HandlersChain) (k : nat) :
  copy (repeat None (length l + k)) (map Some l) = map Some l ++ repeat None k.
Proof.
  unfold copy. rewrite repeat_length, length_map, Nat.min_r by lia.
  rewrite take_ge by (rewrite length_map; lia).
  rewrite repeat_app, drop_app_length' by (rewrite repeat_length; reflexivity).
  reflexivity.
Qed.

(** X14: [combineHandlers] returns the group's handlers followed by the
    given ones, every slot of the chain it allocates filled (no nil slot). *)
Theorem combineHandlers_concat (groupHandlers hs : HandlersChain) :
  combineHandlers groupHandlers hs = map Some (groupHandlers ++ hs).
Proof.
  unfold combineHandlers, make_chain. rewrite copy_into_nil.
  rewrite take_app_length' by (rewrite length_map; reflexivity).
  rewrite drop_app_length' by (rewrite length_map; reflexivity).
  rewrite <- (Nat.add_0_r (length hs)), copy_into_nil. simpl.
  rewrite app_nil_r, map_app. reflexivity.
Qed.

Lemma streqb_refl (a : gostring) : streqb a a = true.
Proof. unfold streqb. apply bool_decide_eq_true_2. reflexivity. Qed.

(** X15: [SetMode] with the empty string or ["debug"] selects debug mode,
    ["release"] and ["test"] select their modes, and any other value panics
    with the message listing the available modes. *)
Theorem SetMode_cases (value : gostring) (s : modeState) :
  ((value = [] \/ value = DebugMode) /\ SetMode value s = Ret (mkModeState debugCode DebugMode)) \/
  (value = ReleaseMode /\ SetMode value s = Ret (mkModeState releaseCode ReleaseMode)) \/
  (value = TestMode /\ SetMode value s = Ret (mkModeState testCode TestMode)) \/
  (value <> [] /\ value <> DebugMode /\ value <> ReleaseMode /\ value <> TestMode /\
   SetMode value s =
     Panic ("hapi mode unknown: " ++ string_of_list_byte value
            ++ " (available mode: debug release test)")%string).
Proof.
  unfold SetMode.
  destruct (decide (value = [])) as [->|H0]; [left; split; [left; reflexivity | reflexivity]|].
  rewrite (streqb_false _ _ H0).
  destruct (decide (value = DebugMode)) as [->|H1]; [left; split; [right; reflexivity | reflexivity]|].
  rewrite (streqb_false _ _ H1).
  destruct (decide (value = ReleaseMode)) as [->|H2]; [right; left; split; reflexivity|].
  rewrite (streqb_false _ _ H2).
  destruct (decide (value = TestMode)) as [->|H3]; [right; right; left; split; reflexivity|].
  rewrite (streqb_false _ _ H3).
  right; right; right. repeat split; assumption.
Qed.

Lemma HasSuffix_newline (f : gostring) :
  HasSuffix f newline = true <-> exists g, f = g ++ newline.
Proof.
  unfold HasSuffix. replace (length newline) with 1%nat by reflexivity.
  destruct f as [|x f'] using rev_ind.
  - simpl. split; [discriminate|]. intros [g Hg]. destruct g; discriminate.
  - rewrite length_app. cbn [length]. replace (length f' + 1 - 1)%nat with (length f') by lia.
    rewrite drop_app_length. rewrite (proj2 (Nat.leb_le _ _)) by lia. cbn [andb].
    split.
    + intros H. apply streqb_true in H. exists f'. rewrite H. reflexivity.
    + intros [g Hg]. apply app_inj_tail in Hg as [_ ->]. apply streqb_refl.
Qed.

(** X16: [debugPrint] prints nothing outside debug mode; in debug mode it
    prints the format prefixed by ["[hapi-debug] "], adding a final newline
    only when the format does not already end with one. *)
Theorem debugPrint_format {V} (s : modeState) (format : gostring) (values : list V) :
  (IsDebugging s = false -> debugPrint s format values = None) /\
  (IsDebugging s = true ->
   (forall g, format = g ++ newline ->
      debugPrint s format values = Some (str "[hapi-debug] " ++ format, values)) /\
   ((forall g, format <> g ++ newline) ->
      debugPrint s format values = Some (str "[hapi-debug] " ++ format ++ newline, values))).
Proof.
  unfold debugPrint. split; [intros ->; reflexivity|]. intros ->. split.
  - intros g Hg. rewrite (proj2 (HasSuffix_newline format) (ex_intro _ g Hg)). reflexivity.
  - intros Hn. destruct (HasSuffix format newline) eqn:E; [|reflexivity].
    apply HasSuffix_newline in E as [g Hg]. exfalso. exact (Hn g Hg).
Qed.

Section KeyFacts.
Import Ctx.

Lemma Get_Set_eq (c : Context) (key : gostring) (value : any) :
  Get (Set_ c key value) key = (value, true).
Proof. unfold Get, Set_, set_keys. cbn [Keys]. rewrite lookup_insert_eq. reflexivity. Qed.

(** X17: after [Set(key, value)], [Get(key)] returns [value] and [true],
    whether or not [Keys] was nil before, and [Get] of every other key is
    unchanged. *)
Theorem Set_Get (c : Context) (key : gostring) (value : any) :
  Get (Set_ c key value) key = (value, true) /\
  (forall key', key' <> key -> Get (Set_ c key value) key' = Get c key').
Proof.
  unfold Get, Set_, set_keys. cbn [Keys]. split.
  - rewrite lookup_insert_eq. reflexivity.
  - intros key' Hne. rewrite lookup_insert_ne by congruence.
    destruct (Keys c) as [m|]; [reflexivity|]. rewrite lookup_empty. reflexivity.
Qed.

(** X18: [reset] does not clear [Keys]: a key set before [reset] is still
    found by [Get] afterwards. *)
Theorem Keys_survive_reset (c : Context) (key : gostring) (value : any) :
  Get (reset (Set_ c key value)) key = (value, true).
Proof. unfold Get, reset, Set_, set_keys. cbn [Keys]. rewrite lookup_insert_eq. reflexivity. Qed.

(** X19: [MustGet] returns the value [Get] finds, returns the value just
    stored by [Set], and panics with the message [Key "<key>" does not exist] when the key
    is missing. *)
Theorem MustGet_spec (c : Context) (key : gostring) (value : any) :
  MustGet (Set_ c key value) key = Ret value /\
  (forall v, MustGet c key = Ret v <-> Get c key = (v, true)) /\
  (snd (Get c key) = false ->
   MustGet c key =
     Panic ("Key " ++ quote ++ string_of_list_byte key ++ quote ++ " does not exist")%string).
Proof.
  split; [unfold MustGet; rewrite (Get_Set_eq c key value); reflexivity|].
  unfold MustGet. destruct (Get c key) as [v0 [|]]; simpl.
  - split; [intros v; split; congruence | discriminate].
  - split; [intros v; split; discriminate | reflexivity].
Qed.

(** X20: [Copy] keeps every key of [Keys] with its value and the full path,
    and returns an aborted context with no handlers. *)
Theorem Copy_spec (c : Context) (key : gostring) :
  Get (Copy c) key = Get c key /\ fullPath (Copy c) = fullPath c /\
  IsAborted (Copy c) = true /\ handlers (Copy c) = [] /\ index (Copy c) = abortIndex.
Proof.
  split; [|repeat split; reflexivity].
  unfold Get, Copy. cbn [Keys].
  destruct (Keys c) as [m|].
  - change (foldr (fun kv m => <[fst kv := snd kv]> m) ∅ (map_to_list m)) with
      (list_to_map (M := gmap gostring any) (map_to_list m)).
    rewrite list_to_map_to_list. reflexivity.
  - simpl. rewrite lookup_empty. reflexivity.
Qed.

End KeyFacts.
(** ** Extras: [lastChar] and [joinPaths] *)

Lemma lastChar_snoc (s : gostring) (b : byte) : lastChar (s ++ [b]) = Ret b.
Proof.
  unfold lastChar. rewrite streqb_false by (destruct s; discriminate).
  unfold index. rewrite length_app. cbn [length].
  replace (length s + 1 - 1)%nat with (length s) by lia.
  rewrite nth_error_app2, Nat.sub_diag by lia. reflexivity.
Qed.

(** X21: [lastChar] panics with ["The length of the string can't be 0"] on
    the empty string and returns the last byte of any other string. *)
Theorem lastChar_spec (s : gostring) (b : byte) :
  lastChar [] = Panic "The length of the string can't be 0" /\ lastChar (s ++ [b]) = Ret b.
Proof. split; [reflexivity | apply lastChar_snoc]. Qed.

(** X22: for a non-empty relative path, and a [path.Join] that gives a
    non-empty result for it, [joinPaths] does not panic; its result ends in a
    slash when the relative path does, and is [path.Join]'s result when the
    relative path does not end in a slash. *)
Theorem joinPaths_trailing_slash (Join : gostring -> gostring -> gostring)
    (absolutePath relativePath : gostring)
    (Hr : relativePath <> []) (HJ : Join absolutePath relativePath <> []) :
  exists out, joinPaths Join absolutePath relativePath = Ret out /\
    (lastChar relativePath = Ret "/"%byte -> exists g, out = g ++ str "/") /\
    (lastChar relativePath <> Ret "/"%byte -> out = Join absolutePath relativePath).
Proof.
  destruct (exists_last Hr) as [r [c Er]].
  destruct (exists_last HJ) as [f [d Ef]].
  assert (Lr : lastChar relativePath = Ret c) by (rewrite Er; apply lastChar_snoc).
  assert (Lf : lastChar (Join absolutePath relativePath) = Ret d) by (rewrite Ef; apply lastChar_snoc).
  unfold joinPaths. cbv zeta. rewrite (streqb_false _ _ Hr), Lr, Lf.
  destruct (Byte.eqb c "/"%byte) eqn:Ec.
  - apply Byte.byte_dec_bl in Ec. subst c.
    destruct (negb (Byte.eqb d "/"%byte)) eqn:Ed.
    + eexists. split; [reflexivity|]. split.
      * intros _. eexists. reflexivity.
      * intros H. exfalso. apply H. reflexivity.
    + eexists. split; [reflexivity|]. split.
      * intros _. apply negb_false_iff, Byte.byte_dec_bl in Ed. subst d. exists f.
        rewrite Ef. reflexivity.
      * intros H. exfalso. apply H. reflexivity.
  - eexists. split; [reflexivity|]. split.
    + intros H. injection H as ->. discriminate Ec.
    + intros _. reflexivity.
Qed.

Lemma joinPaths_trailing_slash_witness :
  exists out, joinPaths slash_join (str "/api") (str "v1/") = Ret out /\
    (lastChar (str "v1/") = Ret "/"%byte -> exists g, out = g ++ str "/") /\
    (lastChar (str "v1/") <> Ret "/"%byte -> out = slash_join (str "/api") (str "v1/")).
Proof.
  apply (joinPaths_trailing_slash slash_join (str "/api") (str "v1/")); vm_compute; discriminate.
Defined.
